(** * Boundary contract of the C BPF SDK: input deserialization,
      the duplicate-accounts example program and the privilege model.

    Shallow embedding of
      - programs/bpf/c/sdk/inc/sol_bpf.h          (sol_deserialize)
      - programs/bpf/c/src/dup_accounts/dup_accounts.c (entrypoint)
      - programs/bpf/c/src/invoked/instruction.h  (instruction constants)

    The BPF machine is LP64 and little-endian.  Memory is one flat array
    of bytes indexed by 64-bit addresses; a C pointer is its address.
    Machine integers are [Z] with the wrap-around written out. *)

From Stdlib Require Import ZArith List Lia Bool.
Import ListNotations.
Local Open Scope Z_scope.

(* ===================================================================== *)
(** ** Machine integers and flat memory *)
(* ===================================================================== *)

Module Mem.

(** [uint8_t], [uint64_t] and [int] values. *)
Definition u8 (z : Z) : Z := z mod 256.
Definition u64 (z : Z) : Z := z mod 18446744073709551616.

Definition INT_MAX : Z := 2147483647.
Definition INT_MIN : Z := -2147483648.

(** Two's complement result of an [int] operation (what the BPF target
    computes; ISO C leaves the overflow undefined). *)
Definition int32 (z : Z) : Z := (z + 2147483648) mod 4294967296 - 2147483648.

(** A memory maps every address to a byte. *)
Definition mem : Type := Z -> Z.

(** [p + n] on pointers: 64-bit address arithmetic. *)
Definition ptr_add (p n : Z) : Z := u64 (p + n).

Definition load8 (m : mem) (p : Z) : Z := u8 (m p).

Definition store8 (m : mem) (p v : Z) : mem :=
  fun a => if a =? p then u8 v else m a.

(** [*(uint64_t * ) p]: eight bytes, least significant first. *)
Definition read_u64 (m : mem) (p : Z) : Z :=
  load8 m p
  + 256 * (load8 m (ptr_add p 1)
  + 256 * (load8 m (ptr_add p 2)
  + 256 * (load8 m (ptr_add p 3)
  + 256 * (load8 m (ptr_add p 4)
  + 256 * (load8 m (ptr_add p 5)
  + 256 * (load8 m (ptr_add p 6)
  + 256 * (load8 m (ptr_add p 7)))))))).

(** The [k]-th byte of a 64-bit value. *)
Definition byte_of (v : Z) (k : Z) : Z := u8 (Z.shiftr (u64 v) (8 * k)).

(** [*(uint64_t * ) p = v]. *)
Definition write_u64 (m : mem) (p v : Z) : mem :=
  fun a =>
    if a =? p then byte_of v 0
    else if a =? ptr_add p 1 then byte_of v 1
    else if a =? ptr_add p 2 then byte_of v 2
    else if a =? ptr_add p 3 then byte_of v 3
    else if a =? ptr_add p 4 then byte_of v 4
    else if a =? ptr_add p 5 then byte_of v 5
    else if a =? ptr_add p 6 then byte_of v 6
    else if a =? ptr_add p 7 then byte_of v 7
    else m a.

(** A buffer [buf] lying at address [base]; [rest] is whatever the
    address space holds around it. *)
Definition place (base : Z) (buf : list Z) (rest : mem) : mem :=
  fun a =>
    if (base <=? a) && (a <? base + Z.of_nat (length buf))
    then nth (Z.to_nat (a - base)) buf 0
    else rest a.

(** A 64-bit cell at [p] that lies inside the address space, and two
    such cells that do not overlap. *)
Definition cell (p : Z) : Prop := 0 <= p /\ p + 8 <= 18446744073709551616.

Definition apart (p q : Z) : Prop := p + 8 <= q \/ q + 8 <= p.

(** The byte at [q] is none of the eight bytes of the cell at [p]. *)
Definition outside (q p : Z) : Prop := q < p \/ p + 8 <= q.

End Mem.

(* ===================================================================== *)
(** ** sol_bpf.h *)
(* ===================================================================== *)

Module SolBpf.
Import Mem.

(** [#define SIZE_PUBKEY 32]; [sizeof(SolPubkey)], [sizeof(uint64_t)],
    [sizeof(int64_t)]. *)
Definition SIZE_PUBKEY : Z := 32.
Definition sizeof_SolPubkey : Z := SIZE_PUBKEY.
Definition sizeof_uint64_t : Z := 8.
Definition sizeof_int64_t : Z := 8.

(** [SolPubkey_same(one, two)]: the loop over the [sizeof( *one)] bytes
    of the two keys, left at the first difference. *)
Fixpoint SolPubkey_same_from (n : nat) (m : mem) (one two i : Z) : bool :=
  match n with
  | O => true
  | S n' =>
      if negb (load8 m (ptr_add one i) =? load8 m (ptr_add two i)) then false
      else SolPubkey_same_from n' m one two (i + 1)
  end.

Definition SolPubkey_same (m : mem) (one two : Z) : bool :=
  SolPubkey_same_from (Z.to_nat sizeof_SolPubkey) m one two 0.

(** [SolKeyedAccounts]: four pointers into the input buffer and a
    length. *)
Record SolKeyedAccounts : Type := mkKA {
  key : Z;
  tokens : Z;
  userdata_len : Z;
  userdata : Z;
  program_id : Z
}.

(** The caller's objects that [sol_deserialize] writes through its
    pointer parameters: the array [ka] (indexed by a C [int]), the cell
    behind [ka_len_out] ([None] when the pointer is NULL) and the cells
    behind [data] and [data_len]. *)
Record outputs : Type := mkOut {
  ka : Z -> SolKeyedAccounts;
  ka_len_out : option Z;
  data : Z;
  data_len : Z
}.

(** [ka[i] = v]. *)
Definition ka_set (a : Z -> SolKeyedAccounts) (i : Z) (v : SolKeyedAccounts)
  : Z -> SolKeyedAccounts :=
  fun j => if j =? i then v else a j.

(** One pass through the body of the [for] loop, lines 207-223: returns
    the entry stored in [ka[i]] and the advanced cursor. *)
Definition deserialize_account (m : mem) (input : Z) : SolKeyedAccounts * Z :=
  let k := input in
  let input := ptr_add input sizeof_SolPubkey in
  let t := input in
  let input := ptr_add input sizeof_int64_t in
  let len := read_u64 m input in
  let input := ptr_add input sizeof_uint64_t in
  let d := input in
  let input := ptr_add input len in
  let o := input in
  let input := ptr_add input sizeof_SolPubkey in
  (mkKA k t len d o, input).

(** [for (int i = 0; i < ka_len; i++) { ... }].  The counter is an [int]
    and the bound a [uint64_t]: the comparison converts [i] to
    [uint64_t], the increment is an [int] increment.  [fuel] bounds the
    number of passes; [None] means the fuel ran out. *)
Fixpoint deserialize_loop (fuel : nat) (m : mem) (ka_len : Z) (i : Z)
    (input : Z) (a : Z -> SolKeyedAccounts) {struct fuel}
  : option (Z * (Z -> SolKeyedAccounts)) :=
  if u64 i <? ka_len then
    match fuel with
    | O => None
    | S fuel' =>
        let '(entry, input') := deserialize_account m input in
        deserialize_loop fuel' m ka_len (int32 (i + 1)) input' (ka_set a i entry)
    end
  else Some (input, a).

(** Lines 205-231, after the mode has fixed [ka_len]. *)
Definition deserialize_body (m : mem) (input : Z) (st : outputs) (ka_len : Z)
  : option (bool * outputs) :=
  let input := ptr_add input sizeof_uint64_t in
  match deserialize_loop (Z.to_nat ka_len) m ka_len 0 input (ka st) with
  | None => None
  | Some (input, a) =>
      let dl := read_u64 m input in
      let input := ptr_add input sizeof_uint64_t in
      Some (true, mkOut a (ka_len_out st) input dl)
  end.

(** [sol_deserialize(input, ka, ka_len, ka_len_out, &data, &data_len)].
    [st] holds the caller's objects before the call; the result is the
    returned boolean and the caller's objects after it. *)
Definition sol_deserialize (m : mem) (input : Z) (st : outputs) (ka_len : Z)
  : option (bool * outputs) :=
  match ka_len_out st with
  | None =>
      if negb (ka_len =? read_u64 m input) then Some (false, st)
      else
        let ka_len := read_u64 m input in
        deserialize_body m input st ka_len
  | Some _ =>
      let ka_len := if ka_len >? read_u64 m input then read_u64 m input else ka_len in
      let st := mkOut (ka st) (Some ka_len) (data st) (data_len st) in
      deserialize_body m input st ka_len
  end.

(** [sol_memcpy(dst, src, len)]: the bytes are copied one by one from
    the lowest address up; [i] and [len] are both [int].  [None] means
    the fuel ran out. *)
Fixpoint sol_memcpy_loop (fuel : nat) (m : mem) (dst src len i : Z)
    {struct fuel} : option mem :=
  if i <? len then
    match fuel with
    | O => None
    | S fuel' =>
        sol_memcpy_loop fuel'
          (store8 m (ptr_add dst i) (load8 m (ptr_add src i)))
          dst src len (int32 (i + 1))
    end
  else Some m.

Definition sol_memcpy (m : mem) (dst src len : Z) : option mem :=
  sol_memcpy_loop (Z.to_nat len) m dst src len 0.

(** [sol_memcmp(s1, s2, n)]: the difference of the first two bytes that
    differ, computed in a [uint8_t] and returned as an [int]; 0 when the
    loop ends. *)
Fixpoint sol_memcmp_loop (fuel : nat) (m : mem) (s1 s2 n i : Z)
    {struct fuel} : option Z :=
  if i <? n then
    match fuel with
    | O => None
    | S fuel' =>
        let diff := u8 (load8 m (ptr_add s1 i) - load8 m (ptr_add s2 i)) in
        if negb (diff =? 0) then Some diff
        else sol_memcmp_loop fuel' m s1 s2 n (int32 (i + 1))
    end
  else Some 0.

Definition sol_memcmp (m : mem) (s1 s2 n : Z) : option Z :=
  sol_memcmp_loop (Z.to_nat n) m s1 s2 n 0.

(** [sol_print], the helper the VM resolves at run time, prints its five
    [uint64_t] arguments: the output of a program is the list of the
    records printed so far, the oldest first. *)
Definition trace : Type := list (Z * Z * Z * Z * Z).

Definition sol_print (t : trace) (a b c d e : Z) : trace :=
  t ++ [(u64 a, u64 b, u64 c, u64 d, u64 e)].

(** [sol_print_key(key)]: one record per byte of the key. *)
Fixpoint sol_print_key_loop (fuel : nat) (m : mem) (t : trace) (key j : Z)
    {struct fuel} : option trace :=
  if u64 j <? sizeof_SolPubkey then
    match fuel with
    | O => None
    | S fuel' =>
        sol_print_key_loop fuel' m
          (sol_print t 0 0 0 j (load8 m (ptr_add key j))) key (int32 (j + 1))
    end
  else Some t.

Definition sol_print_key (m : mem) (t : trace) (key : Z) : option trace :=
  sol_print_key_loop (Z.to_nat sizeof_SolPubkey) m t key 0.

(** [sol_print_array(array, len)]: one record per byte; [len] is an
    [int]. *)
Fixpoint sol_print_array_loop (fuel : nat) (m : mem) (t : trace)
    (array len j : Z) {struct fuel} : option trace :=
  if j <? len then
    match fuel with
    | O => None
    | S fuel' =>
        sol_print_array_loop fuel' m
          (sol_print t 0 0 0 j (load8 m (ptr_add array j)))
          array len (int32 (j + 1))
    end
  else Some t.

Definition sol_print_array (m : mem) (t : trace) (array len : Z)
  : option trace :=
  sol_print_array_loop (Z.to_nat len) m t array len 0.

(** The body of the loop of [sol_print_params] for the entry [v] of
    [ka]: the key, the balance, the data and the owner.  The
    [uint64_t] length of the data is converted to the [int] that
    [sol_print_array] takes. *)
Definition sol_print_account (m : mem) (t : trace) (v : SolKeyedAccounts)
  : option trace :=
  match sol_print_key m t (key v) with
  | None => None
  | Some t =>
      let t := sol_print t 0 0 0 0 (read_u64 m (tokens v)) in
      match sol_print_array m t (userdata v) (int32 (userdata_len v)) with
      | None => None
      | Some t => sol_print_key m t (program_id v)
      end
  end.

(** [for (int i = 0; i < num_ka; i++) { ... }] of [sol_print_params]. *)
Fixpoint sol_print_params_loop (fuel : nat) (m : mem) (t : trace)
    (num_ka : Z) (a : Z -> SolKeyedAccounts) (i : Z) {struct fuel}
  : option trace :=
  if u64 i <? num_ka then
    match fuel with
    | O => None
    | S fuel' =>
        match sol_print_account m t (a i) with
        | None => None
        | Some t => sol_print_params_loop fuel' m t num_ka a (int32 (i + 1))
        end
    end
  else Some t.

(** [sol_print_params(num_ka, ka, data, data_len)]. *)
Definition sol_print_params (m : mem) (t : trace) (num_ka : Z)
    (a : Z -> SolKeyedAccounts) (data data_len : Z) : option trace :=
  let t := sol_print t 0 0 0 0 num_ka in
  match sol_print_params_loop (Z.to_nat num_ka) m t num_ka a 0 with
  | None => None
  | Some t => sol_print_array m t data (int32 data_len)
  end.

(** The memory after [i] bytes of a copy that never reads a byte it has
    written: the first [i] bytes of the destination hold the source
    bytes. *)
Definition copied (m : mem) (dst src i : Z) (mi : mem) : Prop :=
  forall a, mi a = if (dst <=? a) && (a <? dst + i)
                   then u8 (m (a - dst + src)) else m a.

(** The memory after [i] bytes of a copy to a destination [d] bytes above
    the source: the destination repeats the first [d] bytes of the
    source. *)
Definition replicated (m : mem) (dst src d i : Z) (mi : mem) : Prop :=
  forall a, mi a = if (dst <=? a) && (a <? dst + i)
                   then u8 (m (src + (a - dst) mod d)) else m a.

(** What [sol_memcmp] returns when it compares from the byte [i] on. *)
Definition compared (m : mem) (s1 s2 n i r : Z) : Prop :=
  0 <= r <= 255
  /\ (r = 0 <->
      forall j, i <= j < n -> load8 m (ptr_add s1 j) = load8 m (ptr_add s2 j))
  /\ (r <> 0 ->
      exists j, i <= j < n
        /\ (forall j', i <= j' < j ->
              load8 m (ptr_add s1 j') = load8 m (ptr_add s2 j'))
        /\ load8 m (ptr_add s1 j) <> load8 m (ptr_add s2 j)
        /\ r = u8 (load8 m (ptr_add s1 j) - load8 m (ptr_add s2 j))).

(** Passes the loop still has to make when its counter is [i]: the
    counter runs up to [ka_len] or, for a bound no [int] reaches, wraps
    at [INT_MAX] and runs on through the negative values, which convert
    to the largest [uint64_t] values. *)
Definition steps_left (ka_len i : Z) : Z :=
  if 0 <=? i then
    if ka_len <=? 18446744071562067968
    then Z.max 0 (Z.min ka_len 2147483648 - i)
    else 2147483648 - i + (ka_len - 18446744071562067968)
  else Z.max 0 (ka_len - (18446744073709551616 + i)).

End SolBpf.

(* ===================================================================== *)
(** ** The wire format *)
(* ===================================================================== *)

Module Wire.
Import Mem SolBpf.

(** Offset, from the start of the buffer, of the [i]-th serialized
    account, following the layout of the wire format: the 8-byte count,
    then per account a 32-byte identity, an 8-byte balance, an 8-byte
    data length, the data bytes and a 32-byte owner identity, with
    nothing in between.  The data length of an account is read from the
    buffer at offset 40 of that account. *)
Fixpoint account_offset (m : mem) (input : Z) (i : nat) : Z :=
  match i with
  | O => 8
  | S j =>
      let o := account_offset m input j in
      o + 32 + 8 + 8 + read_u64 m (ptr_add input (o + 40)) + 32
  end.

(** The account view the layout prescribes for an account serialized at
    offset [o]. *)
Definition view_at (m : mem) (input : Z) (o : Z) : SolKeyedAccounts :=
  let len := read_u64 m (ptr_add input (o + 40)) in
  mkKA (ptr_add input o)
       (ptr_add input (o + 32))
       len
       (ptr_add input (o + 48))
       (ptr_add input (o + 48 + len)).

(** [st'] holds the decoded form of the buffer's first [n] accounts: the
    entries [0 .. n-1] of [ka] are the views the layout prescribes, the
    other entries are those of [st], and the instruction data is what
    follows the [n]-th account. *)
Definition decoded (m : mem) (input : Z) (st : outputs) (n : Z) (st' : outputs)
  : Prop :=
  (forall j, 0 <= j < n ->
     ka st' j = view_at m input (account_offset m input (Z.to_nat j)))
  /\ (forall j, ~ (0 <= j < n) -> ka st' j = ka st j)
  /\ data_len st' = read_u64 m (ptr_add input (account_offset m input (Z.to_nat n)))
  /\ data st' = ptr_add input (account_offset m input (Z.to_nat n) + 8).

(** The buffer's first [n] accounts and the 8-byte length that follows
    them lie inside the 64-bit address space. *)
Definition fits (m : mem) (input : Z) (n : nat) : Prop :=
  0 <= input /\ input + account_offset m input n + 8 <= 18446744073709551616.

(** Modelled from the spec: the host side of the wire format, which is
    not among the sources.  An account as the host holds it: identity,
    balance, data and owner identity. *)
Record Account : Type := mkAccount {
  identity : list Z;
  balance : Z;
  account_data : list Z;
  owner_identity : list Z
}.

(** Modelled from the spec: a 64-bit integer on the wire, the least
    significant byte first. *)
Definition le64 (v : Z) : list Z :=
  map (byte_of v) [0; 1; 2; 3; 4; 5; 6; 7].

(** Modelled from the spec: the record of one account: identity,
    balance, data length, data, owner identity. *)
Definition serialize_account (a : Account) : list Z :=
  identity a ++ le64 (balance a)
    ++ le64 (Z.of_nat (length (account_data a))) ++ account_data a
    ++ owner_identity a.

(** Modelled from the spec: the buffer: the account count, the records
    of the accounts in order, the instruction-data length and the
    instruction data. *)
Definition serialize (accounts : list Account) (instruction_data : list Z)
  : list Z :=
  le64 (Z.of_nat (length accounts))
    ++ flat_map serialize_account accounts
    ++ le64 (Z.of_nat (length instruction_data)) ++ instruction_data.

(** The bytes one record and a list of records take on the wire. *)
Definition record_size (a : Account) : Z :=
  32 + 8 + 8 + Z.of_nat (length (account_data a)) + 32.

Fixpoint records_size (l : list Account) : Z :=
  match l with
  | [] => 0
  | a :: rest => record_size a + records_size rest
  end.

(** The list [l] with its [k]-th element replaced by [x]. *)
Fixpoint set_nth {A : Type} (l : list A) (k : nat) (x : A) : list A :=
  match l, k with
  | [], _ => []
  | _ :: t, O => x :: t
  | h :: t, S k' => h :: set_nth t k' x
  end.

(** The account [a] after the byte [v] is stored in its [k]-th data
    byte, and after its balance is set to [v]. *)
Definition set_data_byte (a : Account) (k : nat) (v : Z) : Account :=
  mkAccount (identity a) (balance a) (set_nth (account_data a) k (u8 v))
            (owner_identity a).

Definition set_balance (a : Account) (v : Z) : Account :=
  mkAccount (identity a) v (account_data a) (owner_identity a).

(** The records that print the bytes [l], numbered from [j]; the records
    that print one account and a whole input. *)
Fixpoint bytes_trace_from (j : Z) (l : list Z) : trace :=
  match l with
  | [] => []
  | b :: rest => (0, 0, 0, j, u8 b) :: bytes_trace_from (j + 1) rest
  end.

Definition bytes_trace (l : list Z) : trace := bytes_trace_from 0 l.

Definition account_trace (a : Account) : trace :=
  bytes_trace (identity a) ++ [(0, 0, 0, 0, u64 (balance a))]
    ++ bytes_trace (account_data a) ++ bytes_trace (owner_identity a).

Definition params_trace (accounts : list Account) (instruction_data : list Z)
  : trace :=
  [(0, 0, 0, 0, Z.of_nat (length accounts))]
    ++ flat_map account_trace accounts ++ bytes_trace instruction_data.

(** The bytes [l] lie in memory from the address [p] on. *)
Definition holds (m : mem) (p : Z) (l : list Z) : Prop :=
  forall k, 0 <= k < Z.of_nat (length l) ->
    load8 m (ptr_add p k) = u8 (nth (Z.to_nat k) l 0).

(** The [n] bytes the memory holds from the address [p + j] on. *)
Fixpoint bytes_from (m : mem) (p j : Z) (n : nat) : list Z :=
  match n with
  | O => []
  | S n' => load8 m (ptr_add p j) :: bytes_from m p (j + 1) n'
  end.

Definition bytes_at (m : mem) (p : Z) (n : nat) : list Z := bytes_from m p 0 n.

(** The two identities of an account are public keys of 32 bytes. *)
Definition wf_account (a : Account) : Prop :=
  length (identity a) = 32%nat /\ length (owner_identity a) = 32%nat.

End Wire.

(* ===================================================================== *)
(** ** dup_accounts.c *)
(* ===================================================================== *)

Module DupAccounts.
Import Mem.

(** Modelled from the spec: [SolAccountInfo] of solana_sdk.h, which is
    not among the sources.  The spec's Account View: identity, balance
    and data referenced in place, the data length, the owning program
    and the two flags.  The program below uses [lamports] and [data]. *)
Record SolAccountInfo : Type := mkInfo {
  key : Z;
  lamports : Z;
  data_len : Z;
  data : Z;
  owner : Z;
  is_signer : bool;
  is_writable : bool
}.

(** Modelled from the spec: [SolParameters] of solana_sdk.h (the spec's
    Frame): the account views, their number and the instruction
    payload.  [ka] is the caller's array [SolAccountInfo ka[4]]. *)
Record SolParameters : Type := mkParams {
  ka : Z -> SolAccountInfo;
  ka_num : Z;
  params_data : Z;
  params_data_len : Z
}.

Section Program.

(** [sol_deserialize(input, &params, ka_num)] of solana_sdk.h, taken
    as a parameter: [None] when it returns false, otherwise the
    parameters it filled in. *)
Variable sol_deserialize : mem -> Z -> Z -> option SolParameters.

(** The status codes of solana_sdk.h. *)
Variable SUCCESS : Z.
Variable ERROR_INVALID_ARGUMENT : Z.
Variable ERROR_INVALID_INSTRUCTION_DATA : Z.

(** [SOL_ARRAY_SIZE(ka)] for [SolAccountInfo ka[4]]. *)
Definition SOL_ARRAY_SIZE_ka : Z := 4.

(** [x[0] += d] on a [uint8_t]. *)
Definition add_u8 (m : mem) (p d : Z) : mem := store8 m p (load8 m p + d).

(** [*p += d] on the 64-bit balance. *)
Definition add_u64 (m : mem) (p d : Z) : mem := write_u64 m p (read_u64 m p + d).

(** [entrypoint]: the returned status and the memory it leaves.
    [sol_log] only emits a diagnostic and is left out. *)
Definition entrypoint (m : mem) (input : Z) : Z * mem :=
  match sol_deserialize m input SOL_ARRAY_SIZE_ka with
  | None => (ERROR_INVALID_ARGUMENT, m)
  | Some params =>
      let ka := ka params in
      match load8 m (params_data params) with
      | 1 => (SUCCESS, store8 m (data (ka 2)) 1)
      | 2 => (SUCCESS, store8 m (data (ka 3)) 2)
      | 3 =>
          let m := add_u8 m (data (ka 2)) 1 in
          let m := add_u8 m (data (ka 3)) 2 in
          (SUCCESS, m)
      | 4 =>
          let m := add_u64 m (lamports (ka 1)) (-1) in
          let m := add_u64 m (lamports (ka 2)) 1 in
          (SUCCESS, m)
      | 5 =>
          let m := add_u64 m (lamports (ka 1)) (-2) in
          let m := add_u64 m (lamports (ka 3)) 2 in
          (SUCCESS, m)
      | 6 =>
          let m := add_u64 m (lamports (ka 1)) (-3) in
          let m := add_u64 m (lamports (ka 2)) 1 in
          let m := add_u64 m (lamports (ka 3)) 2 in
          (SUCCESS, m)
      | _ => (ERROR_INVALID_INSTRUCTION_DATA, m)
      end
  end.

End Program.

(** An array entry before any call filled it in. *)
Definition blank_view : SolBpf.SolKeyedAccounts := SolBpf.mkKA 0 0 0 0 0.

End DupAccounts.

(* ===================================================================== *)
(** ** instruction.h *)
(* ===================================================================== *)

Module Invoked.

Definition VERIFY_TRANSLATIONS : Z := 0.
Definition RETURN_ERROR : Z := 1.
Definition DERIVED_SIGNERS : Z := 2.
Definition VERIFY_NESTED_SIGNERS : Z := 3.
Definition VERIFY_WRITER : Z := 4.
Definition VERIFY_PRIVILEGE_ESCALATION : Z := 5.
Definition NESTED_INVOKE : Z := 6.
Definition RETURN_OK : Z := 7.
Definition VERIFY_PRIVILEGE_DEESCALATION : Z := 8.
Definition VERIFY_PRIVILEGE_DEESCALATION_ESCALATION_SIGNER : Z := 9.
Definition VERIFY_PRIVILEGE_DEESCALATION_ESCALATION_WRITABLE : Z := 10.

End Invoked.

(* ===================================================================== *)
(** ** The privilege model *)
(* ===================================================================== *)

(** The sources hold only the instruction numbers of the scenarios above;
    the validation that runs at a nested call is not among them.  It is
    modelled here from the specification: the checks of the signer and
    writable flags a callee requests against the grants of its caller.
    Two rules of the specification lie outside these checks and are not
    modelled: the comparison of the backing bytes of the views
    (translation integrity), and the write authority over the data of the
    accounts a program owns, which concerns what a program may mutate and
    not what it may pass on. *)

Module Privilege.

(** Modelled from the spec: an account identity, the bytes of a public
    key. *)
Definition Pubkey : Type := list Z.

(** Modelled from the spec: two identities are the same account. *)
Definition pubkey_eqb (a b : Pubkey) : bool :=
  if list_eq_dec Z.eq_dec a b then true else false.

(** Modelled from the spec: the authority a frame holds over an account
    it can access, the signer and the writable flag.  An account the
    frame cannot access has no grant (the state NoAccess); both flags
    false is ReadOnly. *)
Record Grant : Type := mkGrant {
  signer : bool;
  writable : bool
}.

(** Modelled from the spec: [g] is a subset of (or equal to) [h]. *)
Definition subgrant (g h : Grant) : bool :=
  implb (signer g) (signer h) && implb (writable g) (writable h).

(** Modelled from the spec: the two failures of the privilege model. *)
Inductive Violation : Type :=
| PrivilegeViolation
| IntegrityViolation.

(** Modelled from the spec: the outcome of a validation, success with a
    value or one of the failures. *)
Inductive result (A : Type) : Type :=
| Ok (a : A)
| Err (e : Violation).
Arguments Ok {A} a.
Arguments Err {A} e.

(** Modelled from the spec: the privilege record of one call-stack
    frame, the program that runs in it and, per account identity, the
    grant it was given.  An instruction may list an account twice; the
    first entry is the frame's grant. *)
Record Frame : Type := mkFrame {
  program : Pubkey;
  grants : list (Pubkey * Grant)
}.

(** Modelled from the spec: the grant a frame holds for the identity
    [k]; [None] is the state NoAccess. *)
Fixpoint grant_of (k : Pubkey) (gs : list (Pubkey * Grant)) : option Grant :=
  match gs with
  | [] => None
  | (k', g) :: rest => if pubkey_eqb k k' then Some g else grant_of k rest
  end.

Section Validation.

(** Modelled from the spec: the derivation capability, left open by
    the specification.  [entitled p k] tells whether program [p] may
    assert signer authority for [k] through a program-derived
    address. *)
Variable entitled : Pubkey -> Pubkey -> bool.

(** Modelled from the spec: the validated conditions on one requested
    grant [g] for the account [k], against the grant [h] the caller
    holds for it; one definition per rule of the specification.
    Nested signer derivation: signer status may be asserted only by a
    caller that is itself a signer for the account or is entitled to
    derive it.  Writer privilege check: write authority may be
    requested only for an account the caller holds writable.
    Escalation check: the requested grant must be a subset of (or equal
    to) the caller's, for each flag. *)
Definition nested_signer_check (caller : Frame) (k : Pubkey) (g h : Grant)
  : bool :=
  implb (signer g) (signer h || entitled (program caller) k).

Definition writer_check (g h : Grant) : bool :=
  implb (writable g) (writable h).

Definition escalation_check (g h : Grant) : bool := subgrant g h.

(** Modelled from the spec: the check of one requested account against
    the caller's frame.  Each validated condition must hold, and a
    request for an account the caller cannot access is a superset of
    NoAccess; a condition that fails is a PrivilegeViolation. *)
Definition check_account (caller : Frame) (req : Pubkey * Grant)
  : option Violation :=
  let (k, g) := req in
  match grant_of k (grants caller) with
  | None => Some PrivilegeViolation
  | Some h =>
      if nested_signer_check caller k g h
         && writer_check g h
         && escalation_check g h
      then None
      else Some PrivilegeViolation
  end.

(** Modelled from the spec: every requested account is checked, in
    order; the first violation is fatal. *)
Fixpoint validate (caller : Frame) (request : list (Pubkey * Grant))
  : option Violation :=
  match request with
  | [] => None
  | r :: rest =>
      match check_account caller r with
      | Some e => Some e
      | None => validate caller rest
      end
  end.

(** Modelled from the spec: a call.  The stack has the running frame
    first.  The host's own call (empty stack) starts the outermost
    frame with the grants of the transaction; a nested call is
    validated against the running frame before control transfers,
    and the callee's frame holds the requested grants. *)
Definition invoke (stack : list Frame) (callee : Pubkey)
    (request : list (Pubkey * Grant)) : result (list Frame) :=
  match stack with
  | [] => Ok [mkFrame callee request]
  | caller :: _ =>
      match validate caller request with
      | Some e => Err e
      | None => Ok (mkFrame callee request :: stack)
      end
  end.

(** Modelled from the spec: a chain of nested calls, each made by the
    frame the previous one started. *)
Fixpoint invoke_chain (stack : list Frame)
    (calls : list (Pubkey * list (Pubkey * Grant)))
  : result (list Frame) :=
  match calls with
  | [] => Ok stack
  | (callee, request) :: rest =>
      match invoke stack callee request with
      | Ok stack' => invoke_chain stack' rest
      | Err e => Err e
      end
  end.

End Validation.

End Privilege.

(* ===================================================================== *)
(** ** Concrete inputs *)
(* ===================================================================== *)

Module Examples.
Import Mem.

Definition zero_memory : mem := fun _ => 0.

Definition pubkey_bytes (b : Z) : list Z := repeat b 32.

(** Four accounts as a host lists them; the instruction names the same
    account at the positions 2 and 3. *)
Definition four_accounts : list Wire.Account :=
  [ Wire.mkAccount (pubkey_bytes 1) 100 [7; 8; 9] (pubkey_bytes 11);
    Wire.mkAccount (pubkey_bytes 2) 200 [] (pubkey_bytes 12);
    Wire.mkAccount (pubkey_bytes 3) 300 [5] (pubkey_bytes 13);
    Wire.mkAccount (pubkey_bytes 3) 300 [5] (pubkey_bytes 13) ].

Definition base : Z := 4096.

(** The serialized input whose instruction data is the one byte
    [opcode], lying at [base] in an otherwise zero memory. *)
Definition input_memory (opcode : Z) : mem :=
  place base (Wire.serialize four_accounts [opcode]) zero_memory.

(** The caller's objects before a call in exact mode (NULL passed for
    [ka_len_out]) and in bounded mode. *)
Definition exact_outputs : SolBpf.outputs :=
  SolBpf.mkOut (fun _ => DupAccounts.blank_view) None 0 0.

Definition bounded_outputs : SolBpf.outputs :=
  SolBpf.mkOut (fun _ => DupAccounts.blank_view) (Some 0) 0 0.

(** The caller's objects after the call in exact mode with four
    entries. *)
Definition decoded_outputs (opcode : Z) : SolBpf.outputs :=
  match SolBpf.sol_deserialize (input_memory opcode) base exact_outputs 4 with
  | Some (_, st') => st'
  | None => exact_outputs
  end.

(** A decoder to put in the place of the entry point's parameter when
    a theorem is applied to a concrete input.  It stands for no function
    of the sources: it runs the decoder of sol_bpf.h in exact mode on
    the buffer and renames the fields of its views; that format carries
    no flags. *)
Definition info_of (v : SolBpf.SolKeyedAccounts) : DupAccounts.SolAccountInfo :=
  DupAccounts.mkInfo (SolBpf.key v) (SolBpf.tokens v) (SolBpf.userdata_len v)
    (SolBpf.userdata v) (SolBpf.program_id v) false false.

Definition deserialize_exact (m : mem) (input : Z) (ka_num : Z)
  : option DupAccounts.SolParameters :=
  match SolBpf.sol_deserialize m input
          (SolBpf.mkOut (fun _ => DupAccounts.blank_view) None 0 0) ka_num with
  | Some (true, st) =>
      Some (DupAccounts.mkParams (fun i => info_of (SolBpf.ka st i)) ka_num
              (SolBpf.data st) (SolBpf.data_len st))
  | _ => None
  end.

Definition blank_info : DupAccounts.SolAccountInfo :=
  info_of DupAccounts.blank_view.

Definition decoded_params (opcode : Z) : DupAccounts.SolParameters :=
  match deserialize_exact (input_memory opcode) base 4 with
  | Some p => p
  | None => DupAccounts.mkParams (fun _ => blank_info) 0 0 0
  end.

(** A deserializer for the entry point that resolves the account named
    twice: the entry at index 3 is the view of the entry at index 2, so
    both refer to the same balance and data. *)
Definition deserialize_dup (m : mem) (input : Z) (ka_num : Z)
  : option DupAccounts.SolParameters :=
  match deserialize_exact m input ka_num with
  | Some p =>
      Some (DupAccounts.mkParams
              (fun i => if i =? 3 then DupAccounts.ka p 2 else DupAccounts.ka p i)
              (DupAccounts.ka_num p) (DupAccounts.params_data p)
              (DupAccounts.params_data_len p))
  | None => None
  end.

Definition dup_params (opcode : Z) : DupAccounts.SolParameters :=
  match deserialize_dup (input_memory opcode) base 4 with
  | Some p => p
  | None => DupAccounts.mkParams (fun _ => blank_info) 0 0 0
  end.

(** Status codes for the entry point: zero for success, nonzero for the
    two errors. *)
Definition success_code : Z := 0.
Definition invalid_argument_code : Z := 1.
Definition invalid_instruction_data_code : Z := 2.

(** A buffer of eight bytes that declares two accounts and holds none. *)
Definition short_buffer : list Z := Wire.le64 2.

(** A derivation capability for the privilege model: the program [[2]]
    may sign for the address [[9]]. *)
Definition derives (p k : Privilege.Pubkey) : bool :=
  Privilege.pubkey_eqb p [2] && Privilege.pubkey_eqb k [9].

(** The outermost frame: program [[1]] holds [[9]] as a writable signer
    and [[8]] read-only. *)
Definition outer_frame : Privilege.Frame :=
  Privilege.mkFrame [1]
    [ ([9], Privilege.mkGrant true true); ([8], Privilege.mkGrant false false) ].

(** Program [[2]] running with [[9]] passed writable but not as a
    signer. *)
Definition narrowed_frame : Privilege.Frame :=
  Privilege.mkFrame [2] [ ([9], Privilege.mkGrant false true) ].

End Examples.

(* ===================================================================== *)
(** ** Facts about the machine integers and the memory *)
(* ===================================================================== *)

(** Closes a closed goal made of comparisons by evaluating it. *)
Ltac evaluate :=
  vm_compute; repeat split;
  first [ reflexivity | let H := fresh in intro H; discriminate H ].

Section MemoryFacts.
Import Mem.

Lemma u64_range z : 0 <= u64 z < 18446744073709551616.
Proof. unfold u64. apply Z.mod_pos_bound. lia. Qed.

Lemma u64_small z : 0 <= z < 18446744073709551616 -> u64 z = z.
Proof. intros. unfold u64. apply Z.mod_small. lia. Qed.

Lemma u64_negative z : -18446744073709551616 <= z < 0 -> u64 z = z + 18446744073709551616.
Proof.
  intros. unfold u64.
  symmetry. apply (Z.mod_unique_pos _ _ (-1)); lia.
Qed.

Lemma int32_small z : INT_MIN <= z <= INT_MAX -> int32 z = z.
Proof.
  unfold INT_MIN, INT_MAX, int32. intros.
  rewrite Z.mod_small; lia.
Qed.

Lemma int32_range z : INT_MIN <= int32 z <= INT_MAX.
Proof.
  unfold INT_MIN, INT_MAX, int32.
  pose proof (Z.mod_pos_bound (z + 2147483648) 4294967296). lia.
Qed.

Lemma u8_range z : 0 <= u8 z < 256.
Proof. unfold u8. apply Z.mod_pos_bound. lia. Qed.

Lemma read_u64_range m p : 0 <= read_u64 m p < 18446744073709551616.
Proof.
  unfold read_u64, load8.
  pose proof (u8_range (m p)).
  pose proof (u8_range (m (ptr_add p 1))).
  pose proof (u8_range (m (ptr_add p 2))).
  pose proof (u8_range (m (ptr_add p 3))).
  pose proof (u8_range (m (ptr_add p 4))).
  pose proof (u8_range (m (ptr_add p 5))).
  pose proof (u8_range (m (ptr_add p 6))).
  pose proof (u8_range (m (ptr_add p 7))).
  lia.
Qed.

Lemma ptr_add_add p a b : ptr_add (ptr_add p a) b = ptr_add p (a + b).
Proof.
  unfold ptr_add, u64.
  rewrite Zplus_mod_idemp_l. f_equal. lia.
Qed.


Lemma ptr_add_fits p n :
  0 <= p -> 0 <= n -> p + n < 18446744073709551616 -> ptr_add p n = p + n.
Proof. intros. unfold ptr_add. apply u64_small. lia. Qed.

Lemma load8_store8_same m p x : load8 (store8 m p x) p = u8 x.
Proof.
  unfold load8, store8. rewrite Z.eqb_refl.
  unfold u8. apply Z.mod_mod. lia.
Qed.

Lemma load8_store8_other m p x q : q <> p -> load8 (store8 m p x) q = load8 m q.
Proof.
  intros H. unfold load8, store8.
  replace (q =? p) with false; [reflexivity|].
  symmetry. apply Z.eqb_neq. exact H.
Qed.

Lemma read_u64_ext m m' p :
  m' p = m p ->
  (forall k, 1 <= k <= 7 -> m' (ptr_add p k) = m (ptr_add p k)) ->
  read_u64 m' p = read_u64 m p.
Proof.
  intros H0 H. unfold read_u64, load8.
  rewrite H0, !H by lia. reflexivity.
Qed.

Lemma write_u64_other m p x a :
  a <> p -> (forall k, 1 <= k <= 7 -> a <> ptr_add p k) ->
  write_u64 m p x a = m a.
Proof.
  intros H0 H. unfold write_u64.
  replace (a =? p) with false by (symmetry; apply Z.eqb_neq; exact H0).
  repeat match goal with
  | |- context [a =? ptr_add p ?k] =>
      replace (a =? ptr_add p k) with false
        by (symmetry; apply Z.eqb_neq; apply H; lia)
  end.
  reflexivity.
Qed.

(** A 64-bit cell written at [p] is not read by a 64-bit read at [q] when
    the two cells are apart. *)
Lemma read_u64_write_u64_apart m p q x :
  0 <= p -> 0 <= q ->
  p + 8 <= 18446744073709551616 -> q + 8 <= 18446744073709551616 ->
  p + 8 <= q \/ q + 8 <= p ->
  read_u64 (write_u64 m p x) q = read_u64 m q.
Proof.
  intros Hp Hq Hpe Hqe Hapart.
  apply read_u64_ext.
  - apply write_u64_other; [lia|].
    intros k Hk. rewrite ptr_add_fits by lia. lia.
  - intros k Hk. rewrite (ptr_add_fits q k) by lia.
    apply write_u64_other; [lia|].
    intros k' Hk'. rewrite ptr_add_fits by lia. lia.
Qed.

Lemma read_u64_store8_apart m p q x :
  0 <= q -> q + 8 <= 18446744073709551616 ->
  p < q \/ q + 8 <= p ->
  read_u64 (store8 m p x) q = read_u64 m q.
Proof.
  intros Hq Hqe Hapart.
  apply read_u64_ext.
  - unfold store8. replace (q =? p) with false; [reflexivity|].
    symmetry. apply Z.eqb_neq. lia.
  - intros k Hk. rewrite ptr_add_fits by lia.
    unfold store8. replace (q + k =? p) with false; [reflexivity|].
    symmetry. apply Z.eqb_neq. lia.
Qed.

Lemma le_bytes_sum y :
  0 <= y < 18446744073709551616 ->
  y mod 256
  + 256 * ((y / 256) mod 256
  + 256 * ((y / 65536) mod 256
  + 256 * ((y / 16777216) mod 256
  + 256 * ((y / 4294967296) mod 256
  + 256 * ((y / 1099511627776) mod 256
  + 256 * ((y / 281474976710656) mod 256
  + 256 * ((y / 72057594037927936) mod 256))))))) = y.
Proof.
  intros H. Z.div_mod_to_equations. lia.
Qed.

Lemma byte_of_range x k : 0 <= byte_of x k < 256.
Proof. apply u8_range. Qed.

Lemma read_u64_write_u64_same m p x :
  0 <= p -> p + 8 <= 18446744073709551616 ->
  read_u64 (write_u64 m p x) p = u64 x.
Proof.
  intros Hp Hpe.
  unfold read_u64, load8, write_u64.
  rewrite !ptr_add_fits by lia.
  rewrite Z.eqb_refl.
  repeat match goal with
  | |- context [?a =? ?b] =>
      first [ replace (a =? b) with true by (symmetry; apply Z.eqb_eq; lia)
            | replace (a =? b) with false by (symmetry; apply Z.eqb_neq; lia) ]
  end.
  cbv iota.
  unfold byte_of, u8. rewrite !Z.mod_mod by lia.
  rewrite !Z.shiftr_div_pow2 by lia.
  change (2 ^ (8 * 0)) with 1. rewrite Z.div_1_r.
  change (2 ^ (8 * 1)) with 256.
  change (2 ^ (8 * 2)) with 65536.
  change (2 ^ (8 * 3)) with 16777216.
  change (2 ^ (8 * 4)) with 4294967296.
  change (2 ^ (8 * 5)) with 1099511627776.
  change (2 ^ (8 * 6)) with 281474976710656.
  change (2 ^ (8 * 7)) with 72057594037927936.
  apply le_bytes_sum. apply u64_range.
Qed.

End MemoryFacts.

(* ===================================================================== *)
(** ** sol_deserialize *)
(* ===================================================================== *)

Section DeserializeFacts.
Import Mem SolBpf Wire.

(** The loop never runs out of the fuel [sol_deserialize] gives it. *)
Lemma deserialize_loop_fuel m ka_len :
  ka_len < 18446744073709551616 ->
  forall fuel i input a,
    INT_MIN <= i <= INT_MAX ->
    steps_left ka_len i <= Z.of_nat fuel ->
    deserialize_loop fuel m ka_len i input a <> None.
Proof.
  intros Hk fuel. induction fuel as [|fuel IH]; intros i input a Hi Hs.
  - simpl. destruct (u64 i <? ka_len) eqn:E; [|discriminate].
    exfalso. apply Z.ltb_lt in E.
    unfold steps_left, INT_MIN, INT_MAX in *.
    destruct (0 <=? i) eqn:E0.
    + apply Z.leb_le in E0. rewrite u64_small in E by lia.
      destruct (ka_len <=? 18446744071562067968) eqn:E1; lia.
    + apply Z.leb_gt in E0. rewrite u64_negative in E by lia. lia.
  - cbn [deserialize_loop]. destruct (u64 i <? ka_len) eqn:E; [|discriminate].
    destruct (deserialize_account m input) as [entry input'].
    apply IH; [apply int32_range|].
    apply Z.ltb_lt in E.
    unfold steps_left, INT_MIN, INT_MAX in *.
    destruct (0 <=? i) eqn:E0.
    + apply Z.leb_le in E0. rewrite u64_small in E by lia.
      destruct (Z.eq_dec i 2147483647) as [->|Hne].
      * change (int32 (2147483647 + 1)) with (-2147483648).
        change (0 <=? -2147483648) with false. cbv iota.
        destruct (ka_len <=? 18446744071562067968) eqn:E1; lia.
      * rewrite int32_small by (unfold INT_MIN, INT_MAX; lia).
        replace (0 <=? i + 1) with true by (symmetry; apply Z.leb_le; lia).
        destruct (ka_len <=? 18446744071562067968) eqn:E1; lia.
    + apply Z.leb_gt in E0. rewrite u64_negative in E by lia.
      rewrite int32_small by (unfold INT_MIN, INT_MAX; lia).
      assert (i + 1 < 0) by lia.
      replace (0 <=? i + 1) with false by (symmetry; apply Z.leb_gt; lia).
      lia.
Qed.

Lemma steps_left_start ka_len :
  0 <= ka_len < 18446744073709551616 -> steps_left ka_len 0 <= ka_len.
Proof.
  intros. unfold steps_left. change (0 <=? 0) with true. cbv iota.
  destruct (ka_len <=? 18446744071562067968) eqn:E1; lia.
Qed.

Lemma deserialize_account_at m input o :
  deserialize_account m (ptr_add input o)
  = (view_at m input o,
     ptr_add input (o + 32 + 8 + 8 + read_u64 m (ptr_add input (o + 40)) + 32)).
Proof.
  unfold deserialize_account, view_at, sizeof_SolPubkey, SIZE_PUBKEY,
    sizeof_int64_t, sizeof_uint64_t.
  rewrite !ptr_add_add.
  replace (o + 32 + 8) with (o + 40) by lia.
  replace (o + 40 + 8) with (o + 48) by lia.
  repeat f_equal; lia.
Qed.

Lemma deserialize_loop_layout m input n :
  0 <= n <= INT_MAX ->
  forall (k : nat) (fuel : nat) (i : Z) (a : Z -> SolKeyedAccounts),
    0 <= i -> i + Z.of_nat k = n -> (k <= fuel)%nat ->
    exists a',
      deserialize_loop fuel m n i
        (ptr_add input (account_offset m input (Z.to_nat i))) a
      = Some (ptr_add input (account_offset m input (Z.to_nat n)), a')
      /\ (forall j, i <= j < n ->
            a' j = view_at m input (account_offset m input (Z.to_nat j)))
      /\ (forall j, ~ (i <= j < n) -> a' j = a j).
Proof.
  unfold INT_MAX. intros Hn k.
  induction k as [|k IH]; intros fuel i a Hi Hik Hf.
  - assert (i = n) by lia. subst i.
    exists a. split; [|split].
    + destruct fuel; cbn [deserialize_loop];
        rewrite u64_small by lia; rewrite Z.ltb_irrefl; reflexivity.
    + intros j Hj. lia.
    + reflexivity.
  - destruct fuel as [|fuel]; [lia|].
    cbn [deserialize_loop].
    rewrite u64_small by lia.
    replace (i <? n) with true by (symmetry; apply Z.ltb_lt; lia).
    rewrite deserialize_account_at.
    rewrite int32_small by (unfold INT_MIN, INT_MAX; lia).
    destruct (IH fuel (i + 1)
                (ka_set a i (view_at m input (account_offset m input (Z.to_nat i)))))
      as (a' & Hrun & Hin & Hout); [lia | lia | lia |].
    replace (Z.to_nat (i + 1)) with (S (Z.to_nat i)) in Hrun by lia.
    cbn [account_offset] in Hrun.
    exists a'. split; [exact Hrun | split].
    + intros j Hj. destruct (Z.eq_dec j i) as [->|Hne].
      * rewrite Hout by lia. unfold ka_set. rewrite Z.eqb_refl. reflexivity.
      * apply Hin. lia.
    + intros j Hj. rewrite Hout by lia.
      unfold ka_set. replace (j =? i) with false; [reflexivity|].
      symmetry. apply Z.eqb_neq. lia.
Qed.

Lemma deserialize_body_layout m input st n :
  0 <= n <= INT_MAX ->
  exists st',
    deserialize_body m input st n = Some (true, st')
    /\ ka_len_out st' = ka_len_out st
    /\ decoded m input st n st'.
Proof.
  intros Hn. unfold deserialize_body, sizeof_uint64_t.
  destruct (deserialize_loop_layout m input n Hn (Z.to_nat n) (Z.to_nat n) 0 (ka st))
    as (a' & Hrun & Hin & Hout); [lia | lia | lia |].
  change (account_offset m input (Z.to_nat 0)) with 8 in Hrun.
  rewrite Hrun. rewrite ptr_add_add.
  eexists. split; [reflexivity|]. split; [reflexivity|].
  unfold decoded; cbn [ka data data_len]. auto.
Qed.

Lemma deserialize_body_returns m input st n :
  n < 18446744073709551616 ->
  exists st', deserialize_body m input st n = Some (true, st').
Proof.
  intros Hn. unfold deserialize_body.
  destruct (deserialize_loop (Z.to_nat n) m n 0 (ptr_add input sizeof_uint64_t) (ka st))
    as [[input' a']|] eqn:E.
  - eexists. reflexivity.
  - exfalso. revert E. apply deserialize_loop_fuel; [exact Hn | unfold INT_MIN, INT_MAX; lia |].
    destruct (Z_lt_le_dec n 0).
    + unfold steps_left. change (0 <=? 0) with true. cbv iota.
      replace (n <=? 18446744071562067968) with true by (symmetry; apply Z.leb_le; lia).
      lia.
    + rewrite Z2Nat.id by lia. apply steps_left_start. lia.
Qed.

Lemma account_offset_step m input i :
  account_offset m input i + 80 <= account_offset m input (S i).
Proof.
  cbn [account_offset].
  pose proof (read_u64_range m (ptr_add input (account_offset m input i + 40))).
  lia.
Qed.

Lemma account_offset_mono m input i j :
  (i <= j)%nat -> account_offset m input i <= account_offset m input j.
Proof.
  induction 1 as [|j Hle IH]; [lia|].
  pose proof (account_offset_step m input j). lia.
Qed.

Lemma account_offset_pos m input i : 8 <= account_offset m input i.
Proof.
  change 8 with (account_offset m input 0).
  apply account_offset_mono. lia.
Qed.

Lemma bounded_effective_count ka_len c :
  (if ka_len >? c then c else ka_len) = Z.min ka_len c.
Proof.
  rewrite Z.gtb_ltb. destruct (c <? ka_len) eqn:E.
  - apply Z.ltb_lt in E. lia.
  - apply Z.ltb_ge in E. lia.
Qed.

(** A successful call leaves in [ka] the views of the layout. *)
Lemma sol_deserialize_decoded m input st ka_len st' :
  sol_deserialize m input st ka_len = Some (true, st') ->
  0 <= ka_len ->
  Z.min ka_len (read_u64 m input) <= INT_MAX ->
  decoded m input st (Z.min ka_len (read_u64 m input)) st'.
Proof.
  intros Hrun Hk Hn.
  pose proof (read_u64_range m input) as Hc.
  unfold sol_deserialize in Hrun.
  destruct (ka_len_out st) as [v|].
  - rewrite bounded_effective_count in Hrun.
    destruct (deserialize_body_layout m input
                (mkOut (ka st) (Some (Z.min ka_len (read_u64 m input)))
                       (data st) (data_len st))
                (Z.min ka_len (read_u64 m input)))
      as (st1 & Hrun1 & _ & Hd); [lia|].
    rewrite Hrun1 in Hrun. injection Hrun as <-. exact Hd.
  - destruct (ka_len =? read_u64 m input) eqn:E; cbn [negb] in Hrun;
      [|discriminate Hrun].
    apply Z.eqb_eq in E.
    replace (Z.min ka_len (read_u64 m input)) with (read_u64 m input) in * by lia.
    destruct (deserialize_body_layout m input st (read_u64 m input))
      as (st1 & Hrun1 & _ & Hd); [lia|].
    rewrite Hrun1 in Hrun. injection Hrun as <-. exact Hd.
Qed.

(** C1: in exact mode ([ka_len_out] NULL) the call returns true exactly
    when [ka_len] equals the count in the first eight bytes of the
    buffer; on a mismatch it returns false with the caller's objects
    untouched, so before any account is decoded.  The call returns for
    every memory: the fuel of the loop never runs out. *)
Theorem exact_mode_count_check :
  forall (m : mem) (input : Z) (a : Z -> SolKeyedAccounts) (d dl ka_len : Z),
    ((exists st', sol_deserialize m input (mkOut a None d dl) ka_len = Some (true, st'))
       <-> ka_len = read_u64 m input)
    /\ (ka_len <> read_u64 m input ->
        sol_deserialize m input (mkOut a None d dl) ka_len
        = Some (false, mkOut a None d dl)).
Proof.
  intros m input a d dl ka_len.
  unfold sol_deserialize. cbn [ka_len_out].
  destruct (ka_len =? read_u64 m input) eqn:E; cbn [negb].
  - apply Z.eqb_eq in E. split; [|intros Hne; contradiction].
    split; [intros _; exact E | intros _].
    apply deserialize_body_returns.
    pose proof (read_u64_range m input). lia.
  - apply Z.eqb_neq in E. split; [|reflexivity].
    split; [intros [st' H]; discriminate H | intros H; contradiction].
Qed.

(** C2: in bounded mode the call succeeds and reports the minimum of the
    capacity and the declared count: the count when the capacity reaches
    it, the capacity otherwise.  The entries below that number are the
    decoded views, every other entry of [ka] is left as it was.  The
    number of decoded entries is taken within the range of the loop's
    [int] counter. *)
Theorem bounded_mode_count :
  forall (m : mem) (input : Z) (a : Z -> SolKeyedAccounts) (v d dl ka_len : Z),
    0 <= ka_len ->
    Z.min ka_len (read_u64 m input) <= INT_MAX ->
    exists st',
      sol_deserialize m input (mkOut a (Some v) d dl) ka_len = Some (true, st')
      /\ ka_len_out st' = Some (Z.min ka_len (read_u64 m input))
      /\ (read_u64 m input <= ka_len -> ka_len_out st' = Some (read_u64 m input))
      /\ (ka_len < read_u64 m input -> ka_len_out st' = Some ka_len)
      /\ (forall i, 0 <= i < Z.min ka_len (read_u64 m input) ->
            ka st' i = view_at m input (account_offset m input (Z.to_nat i)))
      /\ (forall i, ~ (0 <= i < Z.min ka_len (read_u64 m input)) -> ka st' i = a i).
Proof.
  intros m input a v d dl ka_len Hk Hn.
  pose proof (read_u64_range m input) as Hc.
  unfold sol_deserialize. cbn [ka_len_out ka data data_len].
  rewrite bounded_effective_count.
  destruct (deserialize_body_layout m input
              (mkOut a (Some (Z.min ka_len (read_u64 m input))) d dl)
              (Z.min ka_len (read_u64 m input)))
    as (st' & Hrun & Hout & Hin & Hrest & _); [lia|].
  exists st'. cbn [ka_len_out ka] in *.
  split; [exact Hrun|]. split; [exact Hout|].
  split; [intros; rewrite Hout; f_equal; lia|].
  split; [intros; rewrite Hout; f_equal; lia|].
  split; assumption.
Qed.

Lemma bounded_mode_count_witness :
  0 <= 2
  /\ Z.min 2 (read_u64 (Examples.input_memory 1) Examples.base) <= INT_MAX
  /\ exists st',
      sol_deserialize (Examples.input_memory 1) Examples.base
        (mkOut (fun _ => DupAccounts.blank_view) (Some 0) 0 0) 2 = Some (true, st')
      /\ ka_len_out st' = Some 2.
Proof.
  split; [lia|]. split; [evaluate|].
  destruct (bounded_mode_count (Examples.input_memory 1) Examples.base
              (fun _ => DupAccounts.blank_view) 0 0 0 2)
    as (st' & Hrun & Hout & _ & Hcap & _).
  - lia.
  - evaluate.
  - exists st'. split; [exact Hrun|]. apply Hcap. vm_compute. reflexivity.
Defined.

(** C3: after a successful call the [i]-th view points at fixed offsets
    of the buffer: the key at the account's offset, the balance 32 bytes
    on, the data length read 8 bytes further, the data right after the
    length, the owner key right after the data, and the next account 32
    bytes after that; the first account starts after the 8-byte count.
    The instruction-data length is read right after the last decoded
    account and the instruction-data pointer is 8 bytes on.  Every
    pointer is an address of the input buffer. *)
Theorem sol_deserialize_layout :
  forall (m : mem) (input : Z) (st : outputs) (ka_len : Z) (st' : outputs),
    sol_deserialize m input st ka_len = Some (true, st') ->
    0 <= ka_len ->
    Z.min ka_len (read_u64 m input) <= INT_MAX ->
    (forall i, 0 <= i < Z.min ka_len (read_u64 m input) ->
       let o := account_offset m input (Z.to_nat i) in
       key (ka st' i) = ptr_add input o
       /\ tokens (ka st' i) = ptr_add input (o + 32)
       /\ userdata_len (ka st' i) = read_u64 m (ptr_add input (o + 32 + 8))
       /\ userdata (ka st' i) = ptr_add input (o + 32 + 8 + 8)
       /\ program_id (ka st' i)
          = ptr_add input (o + 32 + 8 + 8 + userdata_len (ka st' i))
       /\ account_offset m input (S (Z.to_nat i))
          = o + 32 + 8 + 8 + userdata_len (ka st' i) + 32)
    /\ data_len st'
       = read_u64 m (ptr_add input
           (account_offset m input (Z.to_nat (Z.min ka_len (read_u64 m input)))))
    /\ data st'
       = ptr_add input
           (account_offset m input (Z.to_nat (Z.min ka_len (read_u64 m input))) + 8).
Proof.
  intros m input st ka_len st' Hrun Hk Hn.
  pose proof (sol_deserialize_decoded _ _ _ _ _ Hrun Hk Hn) as Hdec.
  destruct Hdec as (Hin & _ & Hdl & Hd).
  split; [|split; assumption].
  intros i Hi. cbv zeta. rewrite (Hin i Hi).
  unfold view_at. cbn [key tokens userdata_len userdata program_id account_offset].
  replace (account_offset m input (Z.to_nat i) + 32 + 8)
    with (account_offset m input (Z.to_nat i) + 40) by lia.
  replace (account_offset m input (Z.to_nat i) + 40 + 8)
    with (account_offset m input (Z.to_nat i) + 48) by lia.
  repeat split; reflexivity.
Qed.

Lemma sol_deserialize_layout_witness :
  key (ka (Examples.decoded_outputs 1) 2) = 4267
  /\ tokens (ka (Examples.decoded_outputs 1) 2) = 4299
  /\ userdata (ka (Examples.decoded_outputs 1) 2) = 4315
  /\ program_id (ka (Examples.decoded_outputs 1) 2) = 4316
  /\ data (Examples.decoded_outputs 1) = 4437.
Proof.
  destruct (sol_deserialize_layout (Examples.input_memory 1) Examples.base
              Examples.exact_outputs 4 (Examples.decoded_outputs 1))
    as (Hview & _ & Hdata).
  - vm_compute. reflexivity.
  - lia.
  - evaluate.
  - destruct (Hview 2) as (Hk & Ht & _ & Hu & Hp & _).
    + evaluate.
    + rewrite Hk, Ht, Hu, Hp, Hdata. vm_compute. repeat split.
Defined.

(** C4 (as the code has it): views are addresses of the buffer, so a byte
    or a balance written at an address is what a read at that address
    returns; but the decoder gives every index its own serialized record,
    and in a buffer that lies inside the address space the records of two
    distinct indices do not overlap: a data byte or a balance written
    through one view is not seen through the other, in either
    direction. *)
Theorem views_of_distinct_indices_are_disjoint :
  forall (m : mem) (input : Z) (st : outputs) (ka_len : Z) (st' : outputs),
    sol_deserialize m input st ka_len = Some (true, st') ->
    0 <= ka_len ->
    Z.min ka_len (read_u64 m input) <= INT_MAX ->
    fits m input (Z.to_nat (Z.min ka_len (read_u64 m input))) ->
    (forall p x, load8 (store8 m p x) p = u8 x)
    /\ (forall p x, 0 <= p -> p + 8 <= 18446744073709551616 ->
          read_u64 (write_u64 m p x) p = u64 x)
    /\ forall i j,
        0 <= i < j -> j < Z.min ka_len (read_u64 m input) ->
        program_id (ka st' i) + 32 <= key (ka st' j)
        /\ (forall k k' x,
              0 <= k < userdata_len (ka st' i) ->
              0 <= k' < userdata_len (ka st' j) ->
              load8 (store8 m (ptr_add (userdata (ka st' i)) k) x)
                    (ptr_add (userdata (ka st' j)) k')
              = load8 m (ptr_add (userdata (ka st' j)) k')
              /\ load8 (store8 m (ptr_add (userdata (ka st' j)) k') x)
                       (ptr_add (userdata (ka st' i)) k)
                 = load8 m (ptr_add (userdata (ka st' i)) k))
        /\ (forall x,
              read_u64 (write_u64 m (tokens (ka st' i)) x) (tokens (ka st' j))
              = read_u64 m (tokens (ka st' j))
              /\ read_u64 (write_u64 m (tokens (ka st' j)) x) (tokens (ka st' i))
                 = read_u64 m (tokens (ka st' i))).
Proof.
  intros m input st ka_len st' Hrun Hk Hn [Hin Hfit].
  split; [apply load8_store8_same|].
  split; [intros p x; apply read_u64_write_u64_same|].
  intros i j Hij Hj.
  destruct (sol_deserialize_decoded _ _ _ _ _ Hrun Hk Hn) as (Hview & _).
  rewrite (Hview i) by lia. rewrite (Hview j) by lia.
  unfold view_at. cbn [key tokens userdata_len userdata program_id].
  set (n := Z.to_nat (Z.min ka_len (read_u64 m input))) in *.
  set (oi := account_offset m input (Z.to_nat i)).
  set (oj := account_offset m input (Z.to_nat j)).
  set (li := read_u64 m (ptr_add input (oi + 40))).
  set (lj := read_u64 m (ptr_add input (oj + 40))).
  assert (Hoi : 8 <= oi) by apply account_offset_pos.
  assert (Hli : 0 <= li) by apply read_u64_range.
  assert (Hlj : 0 <= lj) by apply read_u64_range.
  assert (Hnext_i : account_offset m input (S (Z.to_nat i)) = oi + 80 + li)
    by (cbn [account_offset]; fold oi; fold li; lia).
  assert (Hnext_j : account_offset m input (S (Z.to_nat j)) = oj + 80 + lj)
    by (cbn [account_offset]; fold oj; fold lj; lia).
  assert (Hij' : oi + 80 + li <= oj).
  { rewrite <- Hnext_i. apply account_offset_mono. lia. }
  assert (Hjn : oj + 80 + lj <= account_offset m input n).
  { rewrite <- Hnext_j. apply account_offset_mono. unfold n. lia. }
  rewrite !(ptr_add_fits input) by lia.
  split; [lia|]. split.
  - intros k k' x Hk1 Hk2.
    rewrite !ptr_add_fits by lia.
    split; apply load8_store8_other; lia.
  - intros x. split; apply read_u64_write_u64_apart; lia.
Qed.

Lemma views_of_distinct_indices_are_disjoint_witness :
  program_id (ka (Examples.decoded_outputs 1) 2) + 32
  <= key (ka (Examples.decoded_outputs 1) 3).
Proof.
  destruct (views_of_distinct_indices_are_disjoint (Examples.input_memory 1)
              Examples.base Examples.exact_outputs 4 (Examples.decoded_outputs 1))
    as (_ & _ & Hapart).
  - vm_compute. reflexivity.
  - lia.
  - evaluate.
  - evaluate.
  - destruct (Hapart 2 3) as (Hle & _).
    + lia.
    + vm_compute. reflexivity.
    + exact Hle.
Defined.

(** C4 as the specification states it: the buffer lists one account (the same
    identity, balance, data and owner) at the positions 2 and 3.  The
    two views do not alias: a data byte or a balance written through the
    view at position 2 is not what the view at position 3 reads. *)
Lemma duplicate_views_do_not_alias :
  sol_deserialize (Examples.input_memory 3) Examples.base Examples.exact_outputs 4
  = Some (true, Examples.decoded_outputs 3)
  /\ SolPubkey_same (Examples.input_memory 3)
       (key (ka (Examples.decoded_outputs 3) 2))
       (key (ka (Examples.decoded_outputs 3) 3)) = true
  /\ userdata (ka (Examples.decoded_outputs 3) 2) = 4315
  /\ userdata (ka (Examples.decoded_outputs 3) 3) = 4396
  /\ load8 (store8 (Examples.input_memory 3)
              (userdata (ka (Examples.decoded_outputs 3) 2)) 9)
           (userdata (ka (Examples.decoded_outputs 3) 2)) = 9
  /\ load8 (store8 (Examples.input_memory 3)
              (userdata (ka (Examples.decoded_outputs 3) 2)) 9)
           (userdata (ka (Examples.decoded_outputs 3) 3)) = 5
  /\ read_u64 (write_u64 (Examples.input_memory 3)
                 (tokens (ka (Examples.decoded_outputs 3) 2)) 301)
              (tokens (ka (Examples.decoded_outputs 3) 3)) = 300.
Proof.
  repeat split; vm_compute; reflexivity.
Qed.

(** C9: in bounded mode the call returns true for every memory, so for
    every buffer whatever its extent: nothing is compared with the size
    of the buffer.  The eight-byte buffer that declares two accounts is
    decoded with success, and the views and the instruction data point
    past its end. *)
Theorem bounded_mode_always_succeeds :
  (forall (m : mem) (input : Z) (a : Z -> SolKeyedAccounts) (v d dl ka_len : Z),
     exists st', sol_deserialize m input (mkOut a (Some v) d dl) ka_len = Some (true, st'))
  /\ (forall (base : Z) (buf : list Z) (rest : mem) (a : Z -> SolKeyedAccounts) (v d dl ka_len : Z),
        exists st', sol_deserialize (place base buf rest) base (mkOut a (Some v) d dl) ka_len
                    = Some (true, st'))
  /\ (exists st',
        sol_deserialize (place Examples.base Examples.short_buffer Examples.zero_memory)
          Examples.base Examples.bounded_outputs 2 = Some (true, st')
        /\ ka_len_out st' = Some 2
        /\ Examples.base + Z.of_nat (length Examples.short_buffer) <= key (ka st' 0)
        /\ Examples.base + Z.of_nat (length Examples.short_buffer) <= data st').
Proof.
  assert (H : forall (m : mem) (input : Z) (a : Z -> SolKeyedAccounts) (v d dl ka_len : Z),
     exists st', sol_deserialize m input (mkOut a (Some v) d dl) ka_len = Some (true, st')).
  { intros m input a v d dl ka_len.
    unfold sol_deserialize. cbn [ka_len_out].
    apply deserialize_body_returns.
    pose proof (read_u64_range m input).
    destruct (ka_len >? read_u64 m input) eqn:E; [lia|].
    rewrite Z.gtb_ltb in E. apply Z.ltb_ge in E. lia. }
  split; [exact H|]. split; [intros; apply H|].
  eexists. split; [vm_compute; reflexivity|].
  split; [reflexivity|]. split; evaluate.
Qed.

(** C10: when the declared count exceeds the capacity, the
    instruction-data length is the eight bytes at the start of the first
    account that was not decoded, and the instruction-data pointer is
    eight bytes into that account: inside its record and before the
    trailing instruction-data region of the buffer. *)
Theorem truncation_reads_inside_next_account :
  forall (m : mem) (input : Z) (a : Z -> SolKeyedAccounts) (v d dl ka_len : Z),
    0 <= ka_len < read_u64 m input ->
    ka_len <= INT_MAX ->
    fits m input (Z.to_nat (read_u64 m input)) ->
    let o := account_offset m input (Z.to_nat ka_len) in
    let next := account_offset m input (S (Z.to_nat ka_len)) in
    let trailer := account_offset m input (Z.to_nat (read_u64 m input)) in
    exists st',
      sol_deserialize m input (mkOut a (Some v) d dl) ka_len = Some (true, st')
      /\ ka_len_out st' = Some ka_len
      /\ data_len st' = read_u64 m (input + o)
      /\ data st' = input + o + 8
      /\ input + o + 8 < input + next
      /\ input + next <= input + trailer
      /\ data st' < input + trailer + 8.
Proof.
  intros m input a v d dl ka_len Hk Hmax [Hin Hfit]. cbv zeta.
  pose proof (account_offset_step m input (Z.to_nat ka_len)) as Hstep.
  pose proof (account_offset_mono m input (S (Z.to_nat ka_len))
                (Z.to_nat (read_u64 m input)) ltac:(lia)) as Hmono.
  pose proof (account_offset_pos m input (Z.to_nat ka_len)) as Hpos.
  unfold sol_deserialize. cbn [ka_len_out ka data data_len].
  rewrite bounded_effective_count.
  replace (Z.min ka_len (read_u64 m input)) with ka_len by lia.
  destruct (deserialize_body_layout m input (mkOut a (Some ka_len) d dl) ka_len)
    as (st' & Hrun & Hout & _ & _ & Hdl & Hd); [lia|].
  cbn [ka_len_out] in Hout.
  rewrite ptr_add_fits in Hdl by lia.
  rewrite ptr_add_fits in Hd by lia.
  exists st'. repeat split; try assumption; lia.
Qed.

Lemma truncation_reads_inside_next_account_witness :
  exists st',
    sol_deserialize (Examples.input_memory 1) Examples.base
      (mkOut (fun _ => DupAccounts.blank_view) (Some 0) 0 0) 2 = Some (true, st')
    /\ data_len st' = 217020518514230019
    /\ data st' = 4275.
Proof.
  destruct (truncation_reads_inside_next_account (Examples.input_memory 1)
              Examples.base (fun _ => DupAccounts.blank_view) 0 0 0 2)
    as (st' & Hrun & _ & Hlen & Hdata & _).
  - evaluate.
  - evaluate.
  - evaluate.
  - exists st'. split; [exact Hrun|].
    rewrite Hlen, Hdata. vm_compute. split; reflexivity.
Defined.

Lemma SolPubkey_same_from_spec m one two n :
  forall i,
    SolPubkey_same_from n m one two i = true <->
    (forall k, i <= k < i + Z.of_nat n ->
       load8 m (ptr_add one k) = load8 m (ptr_add two k)).
Proof.
  induction n as [|n IH]; intros i.
  - cbn [SolPubkey_same_from]. split; [intros _ k Hk; lia | reflexivity].
  - cbn [SolPubkey_same_from].
    destruct (load8 m (ptr_add one i) =? load8 m (ptr_add two i)) eqn:E; cbn [negb].
    + apply Z.eqb_eq in E. rewrite IH. split.
      * intros H k Hk. destruct (Z.eq_dec k i) as [->|Hne]; [exact E|].
        apply H. lia.
      * intros H k Hk. apply H. lia.
    + apply Z.eqb_neq in E. split; [discriminate|].
      intros H. exfalso. apply E. apply H. lia.
Qed.

(** X3: [SolPubkey_same] returns true exactly when the two keys agree on
    each of their 32 bytes. *)
Theorem SolPubkey_same_true :
  forall (m : mem) (one two : Z),
    SolPubkey_same m one two = true <->
    (forall k, 0 <= k < SIZE_PUBKEY ->
       load8 m (ptr_add one k) = load8 m (ptr_add two k)).
Proof.
  intros m one two. unfold SolPubkey_same. apply SolPubkey_same_from_spec.
Qed.

(** X2: [sol_deserialize] returns on every input, in both modes: the loop
    with its [int] counter ends within the fuel it is given. *)
Theorem sol_deserialize_returns :
  forall (m : mem) (input : Z) (st : outputs) (ka_len : Z),
    exists b st', sol_deserialize m input st ka_len = Some (b, st').
Proof.
  intros m input st ka_len.
  pose proof (read_u64_range m input) as Hc.
  unfold sol_deserialize.
  destruct (ka_len_out st) as [v|].
  - destruct (deserialize_body_returns m input
                (mkOut (ka st)
                   (Some (if ka_len >? read_u64 m input then read_u64 m input else ka_len))
                   (data st) (data_len st))
                (if ka_len >? read_u64 m input then read_u64 m input else ka_len))
      as (st' & H).
    + rewrite bounded_effective_count. lia.
    + exists true, st'. exact H.
  - destruct (ka_len =? read_u64 m input); cbn [negb].
    + destruct (deserialize_body_returns m input st (read_u64 m input)) as (st' & H);
        [lia|]. exists true, st'. exact H.
    + exists false, st. reflexivity.
Qed.

(** X7: a byte stored at the data pointer of a decoded view changes no
    decoded balance.  For the accounts [sol_deserialize] decodes from a
    buffer that lies inside the address space, the address [userdata] of
    any view, where the first data byte lies and where, for an account
    with no data, its owner key starts, is outside the 8-byte cell
    behind [tokens] of every view. *)
Theorem data_pointer_outside_balances :
  forall (m : mem) (input : Z) (st : outputs) (ka_len : Z) (st' : outputs),
    sol_deserialize m input st ka_len = Some (true, st') ->
    0 <= ka_len ->
    Z.min ka_len (read_u64 m input) <= INT_MAX ->
    fits m input (Z.to_nat (Z.min ka_len (read_u64 m input))) ->
    forall i j x,
      0 <= i < Z.min ka_len (read_u64 m input) ->
      0 <= j < Z.min ka_len (read_u64 m input) ->
      read_u64 (store8 m (userdata (ka st' i)) x) (tokens (ka st' j))
      = read_u64 m (tokens (ka st' j)).
Proof.
  intros m input st ka_len st' Hrun Hlen Hmax [Hin Hfit] i j x Hi Hj.
  destruct (sol_deserialize_decoded m input st ka_len st' Hrun Hlen Hmax)
    as (Hview & _).
  rewrite (Hview i Hi), (Hview j Hj). unfold view_at. cbn [userdata tokens].
  set (n := Z.to_nat (Z.min ka_len (read_u64 m input))) in *.
  pose proof (account_offset_pos m input (Z.to_nat i)) as Hpi.
  pose proof (account_offset_pos m input (Z.to_nat j)) as Hpj.
  pose proof (account_offset_step m input (Z.to_nat i)) as Hsi.
  pose proof (account_offset_step m input (Z.to_nat j)) as Hsj.
  pose proof (account_offset_mono m input (S (Z.to_nat i)) n ltac:(lia)) as Hei.
  pose proof (account_offset_mono m input (S (Z.to_nat j)) n ltac:(lia)) as Hej.
  rewrite !ptr_add_fits by lia.
  apply read_u64_store8_apart; [lia | lia |].
  destruct (Z_lt_le_dec i j) as [Hlt|Hge].
  - left.
    pose proof (account_offset_mono m input (S (Z.to_nat i)) (Z.to_nat j)
                  ltac:(lia)).
    lia.
  - right. destruct (Z.eq_dec i j) as [->|Hne]; [lia|].
    pose proof (account_offset_mono m input (S (Z.to_nat j)) (Z.to_nat i)
                  ltac:(lia)).
    lia.
Qed.

Lemma data_pointer_outside_balances_witness :
  read_u64 (store8 (Examples.input_memory 1)
              (userdata (ka (Examples.decoded_outputs 1) 1)) 9)
           (tokens (ka (Examples.decoded_outputs 1) 1))
  = read_u64 (Examples.input_memory 1)
             (tokens (ka (Examples.decoded_outputs 1) 1))
  /\ userdata_len (ka (Examples.decoded_outputs 1) 1) = 0
  /\ userdata (ka (Examples.decoded_outputs 1) 1)
     = program_id (ka (Examples.decoded_outputs 1) 1).
Proof.
  split; [|split; vm_compute; reflexivity].
  apply (data_pointer_outside_balances (Examples.input_memory 1) Examples.base
           Examples.exact_outputs 4 (Examples.decoded_outputs 1)).
  - vm_compute. reflexivity.
  - lia.
  - evaluate.
  - evaluate.
  - evaluate.
  - evaluate.
Defined.

End DeserializeFacts.

(* ===================================================================== *)
(** ** Buffers written by the host *)
(* ===================================================================== *)

Section WireFacts.
Import Mem SolBpf Wire.

Lemma place_block base pre blk post rest k :
  0 <= k < Z.of_nat (length blk) ->
  place base (pre ++ blk ++ post) rest (base + Z.of_nat (length pre) + k)
  = nth (Z.to_nat k) blk 0.
Proof.
  intros Hk. unfold place.
  rewrite !length_app.
  replace (base <=? base + Z.of_nat (length pre) + k) with true
    by (symmetry; apply Z.leb_le; lia).
  replace (base + Z.of_nat (length pre) + k
           <? base + Z.of_nat (length pre + (length blk + length post))) with true
    by (symmetry; apply Z.ltb_lt; lia).
  cbn [andb].
  replace (Z.to_nat (base + Z.of_nat (length pre) + k - base))
    with (length pre + Z.to_nat k)%nat by lia.
  rewrite app_nth2_plus. apply app_nth1. lia.
Qed.

Lemma length_le64 v : length (le64 v) = 8%nat.
Proof. reflexivity. Qed.

Lemma nth_le64 v k :
  0 <= k < 8 -> nth (Z.to_nat k) (le64 v) 0 = byte_of v k.
Proof.
  intros Hk.
  assert (H : k = 0 \/ k = 1 \/ k = 2 \/ k = 3 \/ k = 4 \/ k = 5 \/ k = 6 \/ k = 7)
    by lia.
  repeat (destruct H as [->|H]; [reflexivity|]). subst k. reflexivity.
Qed.

Lemma read_u64_block base pre v post rest :
  0 <= base ->
  base + Z.of_nat (length (pre ++ le64 v ++ post)) <= 18446744073709551616 ->
  read_u64 (place base (pre ++ le64 v ++ post) rest) (base + Z.of_nat (length pre))
  = u64 v.
Proof.
  intros Hb Hfit. rewrite !length_app, length_le64 in Hfit.
  unfold read_u64, load8.
  rewrite !ptr_add_fits by lia.
  replace (base + Z.of_nat (length pre)) with (base + Z.of_nat (length pre) + 0) at 1 by lia.
  rewrite !place_block by (rewrite length_le64; lia).
  rewrite !nth_le64 by lia.
  unfold byte_of, u8. rewrite !Z.mod_mod by lia.
  rewrite !Z.shiftr_div_pow2 by lia.
  change (2 ^ (8 * 0)) with 1. rewrite Z.div_1_r.
  change (2 ^ (8 * 1)) with 256.
  change (2 ^ (8 * 2)) with 65536.
  change (2 ^ (8 * 3)) with 16777216.
  change (2 ^ (8 * 4)) with 4294967296.
  change (2 ^ (8 * 5)) with 1099511627776.
  change (2 ^ (8 * 6)) with 281474976710656.
  change (2 ^ (8 * 7)) with 72057594037927936.
  apply le_bytes_sum. apply u64_range.
Qed.

Lemma length_serialize_account a :
  wf_account a -> Z.of_nat (length (serialize_account a)) = record_size a.
Proof.
  intros [Hi Ho]. unfold serialize_account, record_size.
  rewrite !length_app, !length_le64, Hi, Ho. lia.
Qed.

Lemma length_records l :
  Forall wf_account l ->
  Z.of_nat (length (flat_map serialize_account l)) = records_size l.
Proof.
  induction 1 as [|a l Ha Hl IH]; [reflexivity|].
  cbn [flat_map records_size]. rewrite length_app, Nat2Z.inj_add, IH.
  rewrite length_serialize_account by assumption. reflexivity.
Qed.

Lemma records_size_app l1 l2 :
  records_size (l1 ++ l2) = records_size l1 + records_size l2.
Proof. induction l1 as [|a l1 IH]; cbn [app records_size]; lia. Qed.

Lemma records_size_nonneg l : 0 <= records_size l.
Proof. induction l as [|a l IH]; cbn [records_size]; unfold record_size; lia. Qed.

Lemma accounts_split (accounts : list Account) i a :
  nth_error accounts i = Some a ->
  accounts = firstn i accounts ++ a :: skipn (S i) accounts.
Proof.
  revert accounts. induction i as [|i IH]; intros [|b l] H; try discriminate.
  - injection H as ->. reflexivity.
  - cbn [firstn skipn app]. f_equal. apply IH. exact H.
Qed.

Lemma firstn_succ (accounts : list Account) i a :
  nth_error accounts i = Some a ->
  firstn (S i) accounts = firstn i accounts ++ [a].
Proof.
  revert accounts. induction i as [|i IH]; intros [|b l] H; try discriminate.
  - injection H as ->. reflexivity.
  - cbn [firstn app]. f_equal. apply IH. exact H.
Qed.

(** The serialized buffer around the record of the [i]-th account. *)
Lemma serialize_split accounts idata i a :
  nth_error accounts i = Some a ->
  serialize accounts idata
  = (le64 (Z.of_nat (length accounts))
       ++ flat_map serialize_account (firstn i accounts))
    ++ serialize_account a
    ++ (flat_map serialize_account (skipn (S i) accounts)
          ++ le64 (Z.of_nat (length idata)) ++ idata).
Proof.
  intros H. unfold serialize.
  rewrite (accounts_split accounts i a H) at 2.
  rewrite flat_map_app. cbn [flat_map].
  rewrite <- !app_assoc. reflexivity.
Qed.

Section Roundtrip.
Variable accounts : list Account.
Variable idata : list Z.
Variable base : Z.
Variable rest : mem.
Hypothesis Hwf : Forall wf_account accounts.
Hypothesis Hbase : 0 <= base.
Hypothesis Hinside :
  base + Z.of_nat (length (serialize accounts idata)) < 18446744073709551616.

Local Abbreviation m := (place base (serialize accounts idata) rest).

Lemma buffer_fits :
  base + Z.of_nat (length (serialize accounts idata)) <= 18446744073709551616.
Proof. apply Z.lt_le_incl. exact Hinside. Qed.

Lemma wf_firstn i : Forall wf_account (firstn i accounts).
Proof.
  rewrite <- (firstn_skipn i accounts) in Hwf.
  apply Forall_app in Hwf. apply Hwf.
Qed.

Lemma wf_nth i a : nth_error accounts i = Some a -> wf_account a.
Proof.
  intros H. apply (proj1 (Forall_forall _ _) Hwf). eapply nth_error_In. eauto.
Qed.

Lemma length_prefix i :
  Z.of_nat (length (le64 (Z.of_nat (length accounts))
                      ++ flat_map serialize_account (firstn i accounts)))
  = 8 + records_size (firstn i accounts).
Proof.
  rewrite length_app, length_le64, Nat2Z.inj_add, length_records by apply wf_firstn.
  lia.
Qed.

(** Where the record of the [i]-th account ends, inside the buffer. *)
Lemma record_inside i a :
  nth_error accounts i = Some a ->
  8 + records_size (firstn i accounts) + record_size a + 8
  <= Z.of_nat (length (serialize accounts idata)).
Proof.
  intros H. rewrite (serialize_split accounts idata i a H).
  rewrite length_app, Nat2Z.inj_add, length_prefix.
  rewrite length_app, Nat2Z.inj_add, length_serialize_account by (eapply wf_nth; eauto).
  rewrite !length_app, length_le64. lia.
Qed.

(** A byte of a field of the [i]-th record: [pre] is what the record
    holds before the field and [post] what it holds after it. *)
Lemma record_field i a pre blk post k :
  nth_error accounts i = Some a ->
  serialize_account a = pre ++ blk ++ post ->
  0 <= k < Z.of_nat (length blk) ->
  m (base + (8 + records_size (firstn i accounts) + Z.of_nat (length pre) + k))
  = nth (Z.to_nat k) blk 0.
Proof.
  intros H Hrec Hk.
  rewrite (serialize_split accounts idata i a H), Hrec.
  set (front := le64 (Z.of_nat (length accounts))
                  ++ flat_map serialize_account (firstn i accounts)).
  set (back := flat_map serialize_account (skipn (S i) accounts)
                 ++ le64 (Z.of_nat (length idata)) ++ idata).
  replace (front ++ (pre ++ blk ++ post) ++ back)
    with ((front ++ pre) ++ blk ++ (post ++ back))
    by (rewrite <- !app_assoc; reflexivity).
  replace (base + (8 + records_size (firstn i accounts) + Z.of_nat (length pre) + k))
    with (base + Z.of_nat (length (front ++ pre)) + k).
  - apply place_block. exact Hk.
  - rewrite length_app, Nat2Z.inj_add. unfold front. rewrite length_prefix. lia.
Qed.

Lemma record_u64 i a pre v post :
  nth_error accounts i = Some a ->
  serialize_account a = pre ++ le64 v ++ post ->
  read_u64 m (base + (8 + records_size (firstn i accounts) + Z.of_nat (length pre)))
  = u64 v.
Proof.
  intros H Hrec.
  assert (Hlen := buffer_fits).
  rewrite (serialize_split accounts idata i a H), Hrec in Hlen |- *.
  set (front := le64 (Z.of_nat (length accounts))
                  ++ flat_map serialize_account (firstn i accounts)) in *.
  set (back := flat_map serialize_account (skipn (S i) accounts)
                 ++ le64 (Z.of_nat (length idata)) ++ idata) in *.
  replace (front ++ (pre ++ le64 v ++ post) ++ back)
    with ((front ++ pre) ++ le64 v ++ (post ++ back)) in *
    by (rewrite <- !app_assoc; reflexivity).
  replace (base + (8 + records_size (firstn i accounts) + Z.of_nat (length pre)))
    with (base + Z.of_nat (length (front ++ pre))).
  - apply read_u64_block; assumption.
  - rewrite length_app, Nat2Z.inj_add. unfold front. rewrite length_prefix. lia.
Qed.

Lemma serialized_count : read_u64 m base = Z.of_nat (length accounts).
Proof.
  unfold serialize.
  replace base with (base + Z.of_nat (length (@nil Z))) at 2 by (cbn; lia).
  change (le64 (Z.of_nat (length accounts)) ++ ?r)
    with ([] ++ le64 (Z.of_nat (length accounts)) ++ r).
  rewrite read_u64_block; [|exact Hbase|exact buffer_fits].
  apply u64_small.
  assert (Z.of_nat (length accounts) + 8
          <= Z.of_nat (length (serialize accounts idata))).
  { unfold serialize. rewrite !length_app, length_le64.
    assert (Hl : Z.of_nat (length accounts)
                 <= Z.of_nat (length (flat_map serialize_account accounts))).
    { rewrite length_records by exact Hwf. clear.
      induction accounts as [|a l IH]; cbn [length records_size]; [lia|].
      unfold record_size. lia. }
    lia. }
  lia.
Qed.

Lemma serialized_data_length i a :
  nth_error accounts i = Some a ->
  read_u64 m (base + (8 + records_size (firstn i accounts) + 40))
  = Z.of_nat (length (account_data a)).
Proof.
  intros H. destruct (wf_nth i a H) as [Hi Ho].
  pose proof (record_inside i a H) as Hin.
  replace 40 with (Z.of_nat (length (identity a ++ le64 (balance a))))
    by (rewrite length_app, length_le64, Hi; reflexivity).
  rewrite (record_u64 i a (identity a ++ le64 (balance a))
             (Z.of_nat (length (account_data a)))
             (account_data a ++ owner_identity a) H).
  - apply u64_small. unfold record_size in Hin.
    pose proof (records_size_nonneg (firstn i accounts)). lia.
  - unfold serialize_account. rewrite <- !app_assoc. reflexivity.
Qed.

Lemma serialized_offset i :
  (i <= length accounts)%nat ->
  account_offset m base i = 8 + records_size (firstn i accounts).
Proof.
  induction i as [|i IH]; intros Hi; [reflexivity|].
  destruct (nth_error accounts i) as [a|] eqn:Ha;
    [|apply nth_error_None in Ha; lia].
  cbn [account_offset]. rewrite IH by lia.
  pose proof (record_inside i a Ha) as Hin.
  pose proof (records_size_nonneg (firstn i accounts)) as Hn.
  assert (0 <= Z.of_nat (length (account_data a))) by lia.
  unfold record_size in Hin.
  rewrite ptr_add_fits by lia.
  rewrite (serialized_data_length i a Ha).
  rewrite (firstn_succ accounts i a Ha), records_size_app.
  cbn [records_size]. unfold record_size. lia.
Qed.

Lemma serialized_trailer :
  read_u64 m (base + (8 + records_size accounts)) = Z.of_nat (length idata)
  /\ forall k, 0 <= k < Z.of_nat (length idata) ->
       m (base + (8 + records_size accounts + 8 + k)) = nth (Z.to_nat k) idata 0.
Proof.
  assert (Hlen : Z.of_nat (length (le64 (Z.of_nat (length accounts))
                                     ++ flat_map serialize_account accounts))
                 = 8 + records_size accounts).
  { rewrite length_app, length_le64, Nat2Z.inj_add, length_records by exact Hwf. lia. }
  assert (Hbuf : serialize accounts idata
                 = (le64 (Z.of_nat (length accounts))
                      ++ flat_map serialize_account accounts)
                   ++ le64 (Z.of_nat (length idata)) ++ idata)
    by (unfold serialize; rewrite <- !app_assoc; reflexivity).
  split.
  - assert (Hf := buffer_fits). rewrite Hbuf in Hf |- *.
    rewrite <- Hlen. rewrite read_u64_block by assumption.
    apply u64_small. rewrite !length_app, length_le64 in Hf. lia.
  - intros k Hk.
    replace (serialize accounts idata)
      with (((le64 (Z.of_nat (length accounts))
                ++ flat_map serialize_account accounts)
               ++ le64 (Z.of_nat (length idata))) ++ idata ++ [])
      by (rewrite Hbuf, app_nil_r, <- !app_assoc; reflexivity).
    replace (base + (8 + records_size accounts + 8 + k))
      with (base + Z.of_nat (length ((le64 (Z.of_nat (length accounts))
                ++ flat_map serialize_account accounts)
               ++ le64 (Z.of_nat (length idata)))) + k)
      by (rewrite length_app, Nat2Z.inj_add, Hlen, length_le64; lia).
    apply place_block. exact Hk.
Qed.

(** X1: round trip.  A buffer serialized from well-formed accounts that lies
    inside the address space is decoded in exact mode with the true
    count; the [i]-th view sits at the offset of the [i]-th record and
    the memory behind its pointers holds the identity, the balance, the
    data and the owner of the [i]-th account; the instruction data is
    read back as well. *)
Theorem deserialize_serialized :
  Z.of_nat (length accounts) <= INT_MAX ->
  forall a0 d dl,
  exists st',
    sol_deserialize m base (mkOut a0 None d dl) (Z.of_nat (length accounts))
    = Some (true, st')
    /\ (forall i a, nth_error accounts i = Some a ->
          key (ka st' (Z.of_nat i)) = base + 8 + records_size (firstn i accounts)
          /\ (forall k, 0 <= k < 32 ->
                load8 m (key (ka st' (Z.of_nat i)) + k)
                = u8 (nth (Z.to_nat k) (identity a) 0))
          /\ read_u64 m (tokens (ka st' (Z.of_nat i))) = u64 (balance a)
          /\ userdata_len (ka st' (Z.of_nat i)) = Z.of_nat (length (account_data a))
          /\ (forall k, 0 <= k < Z.of_nat (length (account_data a)) ->
                load8 m (userdata (ka st' (Z.of_nat i)) + k)
                = u8 (nth (Z.to_nat k) (account_data a) 0))
          /\ (forall k, 0 <= k < 32 ->
                load8 m (program_id (ka st' (Z.of_nat i)) + k)
                = u8 (nth (Z.to_nat k) (owner_identity a) 0)))
    /\ data_len st' = Z.of_nat (length idata)
    /\ (forall k, 0 <= k < Z.of_nat (length idata) ->
          load8 m (data st' + k) = u8 (nth (Z.to_nat k) idata 0)).
Proof.
  intros Hmax a0 d dl.
  unfold sol_deserialize. cbn [ka_len_out].
  rewrite serialized_count, Z.eqb_refl. cbn [negb].
  destruct (deserialize_body_layout m base (mkOut a0 None d dl)
              (Z.of_nat (length accounts)))
    as (st' & Hrun & _ & Hview & _ & Hdl & Hd); [lia|].
  exists st'. split; [exact Hrun|].
  rewrite Nat2Z.id in Hdl, Hd.
  rewrite serialized_offset in Hdl, Hd by lia.
  rewrite firstn_all in Hdl, Hd.
  destruct serialized_trailer as [Htl Htd].
  assert (Hend : 8 + records_size accounts + 8 + Z.of_nat (length idata)
                 = Z.of_nat (length (serialize accounts idata))).
  { unfold serialize. rewrite !length_app, !length_le64, !Nat2Z.inj_add.
    rewrite length_records by exact Hwf. lia. }
  pose proof (records_size_nonneg accounts) as Hrs.
  pose proof Hinside as Hin'.
  rewrite ptr_add_fits in Hdl, Hd by lia.
  split; [|split].
  - intros i a Ha.
    assert (Hi : (i < length accounts)%nat)
      by (apply nth_error_Some; congruence).
    rewrite Hview by lia. rewrite Nat2Z.id.
    rewrite serialized_offset by lia.
    destruct (wf_nth i a Ha) as [Hli Hlo].
    pose proof (record_inside i a Ha) as Hin. unfold record_size in Hin.
    pose proof (records_size_nonneg (firstn i accounts)) as Hn.
    unfold view_at. cbn [key tokens userdata_len userdata program_id].
    rewrite !(ptr_add_fits base) by lia.
    rewrite (serialized_data_length i a Ha).
    rewrite !(ptr_add_fits base) by lia.
    split; [lia|]. split; [|split; [|split; [reflexivity|split]]].
    + intros k Hk. unfold load8. f_equal.
      replace (base + (8 + records_size (firstn i accounts)) + k)
        with (base + (8 + records_size (firstn i accounts)
                      + Z.of_nat (length (@nil Z)) + k)) by (cbn; lia).
      apply (record_field i a [] (identity a)
               (le64 (balance a) ++ le64 (Z.of_nat (length (account_data a)))
                  ++ account_data a ++ owner_identity a) k Ha); [reflexivity | lia].
    + replace (base + (8 + records_size (firstn i accounts) + 32))
        with (base + (8 + records_size (firstn i accounts)
                      + Z.of_nat (length (identity a)))) by lia.
      apply (record_u64 i a (identity a) (balance a)
               (le64 (Z.of_nat (length (account_data a)))
                  ++ account_data a ++ owner_identity a) Ha). reflexivity.
    + intros k Hk. unfold load8. f_equal.
      replace (base + (8 + records_size (firstn i accounts) + 48) + k)
        with (base + (8 + records_size (firstn i accounts)
                      + Z.of_nat (length (identity a ++ le64 (balance a)
                           ++ le64 (Z.of_nat (length (account_data a))))) + k))
        by (rewrite !length_app, !length_le64, Hli; lia).
      apply (record_field i a
               (identity a ++ le64 (balance a)
                  ++ le64 (Z.of_nat (length (account_data a))))
               (account_data a) (owner_identity a) k Ha); [|lia].
      unfold serialize_account. rewrite <- !app_assoc. reflexivity.
    + intros k Hk. unfold load8. f_equal.
      replace (base + (8 + records_size (firstn i accounts) + 48
                       + Z.of_nat (length (account_data a))) + k)
        with (base + (8 + records_size (firstn i accounts)
                      + Z.of_nat (length (identity a ++ le64 (balance a)
                           ++ le64 (Z.of_nat (length (account_data a)))
                           ++ account_data a)) + k))
        by (rewrite !length_app, !length_le64, Hli; lia).
      apply (record_field i a
               (identity a ++ le64 (balance a)
                  ++ le64 (Z.of_nat (length (account_data a))) ++ account_data a)
               (owner_identity a) [] k Ha); [|lia].
      unfold serialize_account. rewrite app_nil_r, <- !app_assoc. reflexivity.
  - rewrite Hdl. exact Htl.
  - intros k Hk. rewrite Hd. unfold load8. f_equal.
    replace (base + (8 + records_size accounts + 8) + k)
      with (base + (8 + records_size accounts + 8 + k)) by lia.
    apply Htd. exact Hk.
Qed.
End Roundtrip.

Lemma deserialize_serialized_witness :
  exists st',
    sol_deserialize (Examples.input_memory 1) Examples.base
      Examples.exact_outputs 4 = Some (true, st')
    /\ data_len st' = 1.
Proof.
  destruct (deserialize_serialized Examples.four_accounts [1] Examples.base
              Examples.zero_memory) with (a0 := fun _ : Z => DupAccounts.blank_view)
              (d := 0) (dl := 0)
    as (st' & Hrun & _ & Hlen & _).
  - repeat constructor.
  - evaluate.
  - evaluate.
  - evaluate.
  - exists st'. split; [exact Hrun | exact Hlen].
Defined.

End WireFacts.

(* ===================================================================== *)
(** ** dup_accounts.c *)
(* ===================================================================== *)

Section DupAccountsFacts.
Import Mem DupAccounts.

(** C7: when the input decodes and its first instruction-data byte is 1,
    the program returns the success code and stores 1 in the first data
    byte of the account at index 2; every other byte of the memory is
    left as it was, so no other data byte changes, and the balance of
    every account whose 64-bit cell does not hold that byte reads as
    before. *)
Theorem opcode_1_sets_first_data_byte :
  forall (deser : mem -> Z -> Z -> option SolParameters)
         (SUCCESS E_ARGUMENT E_INSTRUCTION_DATA : Z)
         (m : mem) (input : Z) (params : SolParameters),
    deser m input SOL_ARRAY_SIZE_ka = Some params ->
    load8 m (params_data params) = 1 ->
    fst (entrypoint deser SUCCESS E_ARGUMENT E_INSTRUCTION_DATA m input) = SUCCESS
    /\ load8 (snd (entrypoint deser SUCCESS E_ARGUMENT E_INSTRUCTION_DATA m input))
             (data (ka params 2)) = 1
    /\ (forall a, a <> data (ka params 2) ->
          snd (entrypoint deser SUCCESS E_ARGUMENT E_INSTRUCTION_DATA m input) a = m a)
    /\ (forall j,
          0 <= lamports (ka params j) ->
          lamports (ka params j) + 8 <= 18446744073709551616 ->
          data (ka params 2) < lamports (ka params j)
          \/ lamports (ka params j) + 8 <= data (ka params 2) ->
          read_u64 (snd (entrypoint deser SUCCESS E_ARGUMENT E_INSTRUCTION_DATA m input))
                   (lamports (ka params j))
          = read_u64 m (lamports (ka params j))).
Proof.
  intros deser S EA EI m input params Hdes Hop.
  unfold entrypoint. rewrite Hdes, Hop. cbn [fst snd].
  split; [reflexivity|]. split; [apply load8_store8_same|]. split.
  - intros a Ha. unfold store8.
    replace (a =? data (ka params 2)) with false; [reflexivity|].
    symmetry. apply Z.eqb_neq. exact Ha.
  - intros j H0 H1 Hapart. apply read_u64_store8_apart; assumption.
Qed.

Lemma opcode_1_sets_first_data_byte_witness :
  fst (entrypoint Examples.deserialize_exact Examples.success_code
         Examples.invalid_argument_code Examples.invalid_instruction_data_code
         (Examples.input_memory 1) Examples.base) = 0
  /\ load8 (snd (entrypoint Examples.deserialize_exact Examples.success_code
                   Examples.invalid_argument_code
                   Examples.invalid_instruction_data_code
                   (Examples.input_memory 1) Examples.base)) 4315 = 1.
Proof.
  destruct (opcode_1_sets_first_data_byte Examples.deserialize_exact Examples.success_code
              Examples.invalid_argument_code Examples.invalid_instruction_data_code
              (Examples.input_memory 1) Examples.base (Examples.decoded_params 1))
    as (Hret & Hbyte & _).
  - vm_compute. reflexivity.
  - vm_compute. reflexivity.
  - split; [exact Hret | exact Hbyte].
Defined.

(** C8: when the input decodes and its first instruction-data byte is
    none of 1 to 6, the program returns the invalid-instruction-data
    code and the memory it leaves is the memory it was given: no balance
    and no data byte changes. *)
Theorem unrecognized_opcode_rejected :
  forall (deser : mem -> Z -> Z -> option SolParameters)
         (SUCCESS E_ARGUMENT E_INSTRUCTION_DATA : Z)
         (m : mem) (input : Z) (params : SolParameters),
    deser m input SOL_ARRAY_SIZE_ka = Some params ->
    ~ (1 <= load8 m (params_data params) <= 6) ->
    entrypoint deser SUCCESS E_ARGUMENT E_INSTRUCTION_DATA m input
    = (E_INSTRUCTION_DATA, m).
Proof.
  intros deser S EA EI m input params Hdes Hop.
  unfold entrypoint. rewrite Hdes.
  destruct (load8 m (params_data params)) as [|p|p]; try reflexivity.
  destruct p as [[[|q| ]|[|q| ]| ]|[[|q| ]|[|q| ]| ]| ]; try reflexivity; exfalso; apply Hop; lia.
Qed.

Lemma unrecognized_opcode_rejected_witness :
  entrypoint Examples.deserialize_exact Examples.success_code
    Examples.invalid_argument_code Examples.invalid_instruction_data_code
    (Examples.input_memory 7) Examples.base
  = (Examples.invalid_instruction_data_code, Examples.input_memory 7).
Proof.
  apply (unrecognized_opcode_rejected Examples.deserialize_exact Examples.success_code
           Examples.invalid_argument_code Examples.invalid_instruction_data_code
           (Examples.input_memory 7) Examples.base (Examples.decoded_params 7)).
  - vm_compute. reflexivity.
  - intros [_ H]. vm_compute in H. apply H. reflexivity.
Defined.

Lemma read_add_u64_same m p d :
  cell p -> read_u64 (add_u64 m p d) p = u64 (read_u64 m p + d).
Proof. intros [H0 H1]. unfold add_u64. apply read_u64_write_u64_same; assumption. Qed.

Lemma read_add_u64_apart m p q d :
  cell p -> cell q -> apart p q -> read_u64 (add_u64 m p d) q = read_u64 m q.
Proof.
  intros [H0 H1] [H2 H3] H. unfold add_u64.
  apply read_u64_write_u64_apart; assumption.
Qed.

Lemma apart_sym p q : apart p q -> apart q p.
Proof. unfold apart. lia. Qed.

(** X5: opcode 3.  The program returns the success code; the first data byte
    of the account at index 2 grows by 1 and that of the account at index
    3 by 2 (as bytes); when the two views hold the same data pointer the
    one byte grows by 3; no other byte of the memory changes. *)
Theorem opcode_3_increments_data :
  forall (deser : mem -> Z -> Z -> option SolParameters)
         (SUCCESS E_ARGUMENT E_INSTRUCTION_DATA : Z)
         (m : mem) (input : Z) (params : SolParameters),
    deser m input SOL_ARRAY_SIZE_ka = Some params ->
    load8 m (params_data params) = 3 ->
    fst (entrypoint deser SUCCESS E_ARGUMENT E_INSTRUCTION_DATA m input) = SUCCESS
    /\ (data (ka params 2) <> data (ka params 3) ->
        load8 (snd (entrypoint deser SUCCESS E_ARGUMENT E_INSTRUCTION_DATA m input))
              (data (ka params 2))
        = u8 (load8 m (data (ka params 2)) + 1)
        /\ load8 (snd (entrypoint deser SUCCESS E_ARGUMENT E_INSTRUCTION_DATA m input))
                 (data (ka params 3))
           = u8 (load8 m (data (ka params 3)) + 2))
    /\ (data (ka params 2) = data (ka params 3) ->
        load8 (snd (entrypoint deser SUCCESS E_ARGUMENT E_INSTRUCTION_DATA m input))
              (data (ka params 3))
        = u8 (load8 m (data (ka params 2)) + 3))
    /\ (forall a, a <> data (ka params 2) -> a <> data (ka params 3) ->
          snd (entrypoint deser SUCCESS E_ARGUMENT E_INSTRUCTION_DATA m input) a = m a).
Proof.
  intros deser S EA EI m input params Hdes Hop.
  unfold entrypoint. rewrite Hdes, Hop. cbn [fst snd].
  split; [reflexivity|]. unfold add_u8. split; [|split].
  - intros Hne. split.
    + rewrite load8_store8_other by exact Hne. apply load8_store8_same.
    + rewrite load8_store8_same.
      rewrite load8_store8_other by congruence. reflexivity.
  - intros <-. rewrite !load8_store8_same.
    unfold u8. rewrite Zplus_mod_idemp_l. f_equal. lia.
  - intros a H2 H3. unfold store8.
    replace (a =? data (ka params 3)) with false by (symmetry; apply Z.eqb_neq; exact H3).
    replace (a =? data (ka params 2)) with false by (symmetry; apply Z.eqb_neq; exact H2).
    reflexivity.
Qed.

Lemma opcode_3_increments_data_witness :
  load8 (snd (entrypoint Examples.deserialize_exact Examples.success_code
                Examples.invalid_argument_code
                Examples.invalid_instruction_data_code
                (Examples.input_memory 3) Examples.base)) 4315 = 6
  /\ load8 (snd (entrypoint Examples.deserialize_exact Examples.success_code
                   Examples.invalid_argument_code
                   Examples.invalid_instruction_data_code
                   (Examples.input_memory 3) Examples.base)) 4396 = 7.
Proof.
  destruct (opcode_3_increments_data Examples.deserialize_exact Examples.success_code
              Examples.invalid_argument_code Examples.invalid_instruction_data_code
              (Examples.input_memory 3) Examples.base (Examples.decoded_params 3))
    as (_ & Hapart & _).
  - vm_compute. reflexivity.
  - vm_compute. reflexivity.
  - destruct Hapart as [H2 H3]; [evaluate|].
    split; (etransitivity; [eassumption | vm_compute; reflexivity]).
Defined.

(** X6: opcode 6, with the balances of the accounts at the indices 1, 2 and
    3 in three separate 64-bit cells: the program returns the success
    code, the first balance falls by 3, the second grows by 1 and the
    third by 2 (as 64-bit integers), and the sum of the three balances is
    the same as before. *)
Theorem opcode_6_moves_lamports :
  forall (deser : mem -> Z -> Z -> option SolParameters)
         (SUCCESS E_ARGUMENT E_INSTRUCTION_DATA : Z)
         (m : mem) (input : Z) (params : SolParameters),
    deser m input SOL_ARRAY_SIZE_ka = Some params ->
    load8 m (params_data params) = 6 ->
    cell (lamports (ka params 1)) ->
    cell (lamports (ka params 2)) ->
    cell (lamports (ka params 3)) ->
    apart (lamports (ka params 1)) (lamports (ka params 2)) ->
    apart (lamports (ka params 1)) (lamports (ka params 3)) ->
    apart (lamports (ka params 2)) (lamports (ka params 3)) ->
    fst (entrypoint deser SUCCESS E_ARGUMENT E_INSTRUCTION_DATA m input) = SUCCESS
    /\ read_u64 (snd (entrypoint deser SUCCESS E_ARGUMENT E_INSTRUCTION_DATA m input))
                (lamports (ka params 1))
       = u64 (read_u64 m (lamports (ka params 1)) - 3)
    /\ read_u64 (snd (entrypoint deser SUCCESS E_ARGUMENT E_INSTRUCTION_DATA m input))
                (lamports (ka params 2))
       = u64 (read_u64 m (lamports (ka params 2)) + 1)
    /\ read_u64 (snd (entrypoint deser SUCCESS E_ARGUMENT E_INSTRUCTION_DATA m input))
                (lamports (ka params 3))
       = u64 (read_u64 m (lamports (ka params 3)) + 2)
    /\ u64 (read_u64 (snd (entrypoint deser SUCCESS E_ARGUMENT E_INSTRUCTION_DATA m input))
                     (lamports (ka params 1))
            + read_u64 (snd (entrypoint deser SUCCESS E_ARGUMENT E_INSTRUCTION_DATA m input))
                       (lamports (ka params 2))
            + read_u64 (snd (entrypoint deser SUCCESS E_ARGUMENT E_INSTRUCTION_DATA m input))
                       (lamports (ka params 3)))
       = u64 (read_u64 m (lamports (ka params 1))
              + read_u64 m (lamports (ka params 2))
              + read_u64 m (lamports (ka params 3))).
Proof.
  intros deser S EA EI m input params Hdes Hop C1 C2 C3 A12 A13 A23.
  unfold entrypoint. rewrite Hdes, Hop. cbn [fst snd].
  set (p1 := lamports (ka params 1)) in *.
  set (p2 := lamports (ka params 2)) in *.
  set (p3 := lamports (ka params 3)) in *.
  assert (H1 : read_u64 (add_u64 (add_u64 (add_u64 m p1 (-3)) p2 1) p3 2) p1
               = u64 (read_u64 m p1 - 3)).
  { rewrite read_add_u64_apart by (auto using apart_sym).
    rewrite read_add_u64_apart by (auto using apart_sym).
    rewrite read_add_u64_same by assumption. f_equal. }
  assert (H2 : read_u64 (add_u64 (add_u64 (add_u64 m p1 (-3)) p2 1) p3 2) p2
               = u64 (read_u64 m p2 + 1)).
  { rewrite read_add_u64_apart by (auto using apart_sym).
    rewrite read_add_u64_same by assumption.
    rewrite read_add_u64_apart by assumption. reflexivity. }
  assert (H3 : read_u64 (add_u64 (add_u64 (add_u64 m p1 (-3)) p2 1) p3 2) p3
               = u64 (read_u64 m p3 + 2)).
  { rewrite read_add_u64_same by assumption.
    rewrite read_add_u64_apart by assumption.
    rewrite read_add_u64_apart by assumption. reflexivity. }
  split; [reflexivity|]. rewrite H1, H2, H3.
  repeat split.
  unfold u64. Z.div_mod_to_equations. lia.
Qed.

Lemma opcode_6_moves_lamports_witness :
  read_u64 (snd (entrypoint Examples.deserialize_exact Examples.success_code
                   Examples.invalid_argument_code
                   Examples.invalid_instruction_data_code
                   (Examples.input_memory 6) Examples.base)) 4219 = 197
  /\ read_u64 (snd (entrypoint Examples.deserialize_exact Examples.success_code
                      Examples.invalid_argument_code
                      Examples.invalid_instruction_data_code
                      (Examples.input_memory 6) Examples.base)) 4299 = 301
  /\ read_u64 (snd (entrypoint Examples.deserialize_exact Examples.success_code
                      Examples.invalid_argument_code
                      Examples.invalid_instruction_data_code
                      (Examples.input_memory 6) Examples.base)) 4380 = 302.
Proof.
  destruct (opcode_6_moves_lamports Examples.deserialize_exact Examples.success_code
              Examples.invalid_argument_code Examples.invalid_instruction_data_code
              (Examples.input_memory 6) Examples.base (Examples.decoded_params 6))
    as (_ & H1 & H2 & H3 & _).
  - vm_compute. reflexivity.
  - vm_compute. reflexivity.
  - evaluate.
  - evaluate.
  - evaluate.
  - left. evaluate.
  - left. evaluate.
  - left. evaluate.
  - split; [|split]; (etransitivity; [eassumption | vm_compute; reflexivity]).
Defined.

End DupAccountsFacts.

(* ===================================================================== *)
(** ** The privilege model *)
(* ===================================================================== *)

Section PrivilegeFacts.
Import Privilege.

Lemma pubkey_eqb_eq a b : pubkey_eqb a b = true <-> a = b.
Proof.
unfold pubkey_eqb. destruct (list_eq_dec Z.eq_dec a b); split; intros; congruence.
Qed.

Lemma pubkey_eqb_refl a : pubkey_eqb a a = true.
Proof. apply pubkey_eqb_eq. reflexivity. Qed.

Lemma grant_of_In k gs g : grant_of k gs = Some g -> In (k, g) gs.
Proof.
induction gs as [|[k' g'] gs IH]; cbn [grant_of]; [discriminate|].
destruct (pubkey_eqb k k') eqn:E.
- intros [= ->]. apply pubkey_eqb_eq in E. subst k'. left. reflexivity.
- intros H. right. apply IH. exact H.
Qed.

Lemma subgrant_trans g h i :
  subgrant g h = true -> subgrant h i = true -> subgrant g i = true.
Proof.
  unfold subgrant.
  destruct (signer g), (signer h), (signer i),
    (writable g), (writable h), (writable i); cbn; congruence.
Qed.

Lemma subgrant_flags g h :
  subgrant g h = true <->
  (signer g = true -> signer h = true)
  /\ (writable g = true -> writable h = true).
Proof.
  unfold subgrant.
  destruct (signer g), (signer h), (writable g), (writable h); cbn;
    split; try reflexivity; try discriminate; auto;
    intros [Hs Hw]; try (specialize (Hs eq_refl); discriminate Hs);
    specialize (Hw eq_refl); discriminate Hw.
Qed.

Section Checks.

Variable entitled : Pubkey -> Pubkey -> bool.

Lemma check_account_violation caller r e :
  check_account entitled caller r = Some e -> e = PrivilegeViolation.
Proof.
  unfold check_account. destruct r as [k g].
  destruct (grant_of k (grants caller)) as [h|]; [|congruence].
  destruct (nested_signer_check entitled caller k g h
            && writer_check g h && escalation_check g h); congruence.
Qed.

Lemma validate_violation caller request e :
  validate entitled caller request = Some e -> e = PrivilegeViolation.
Proof.
  induction request as [|r rest IH]; cbn [validate]; [discriminate|].
  destruct (check_account entitled caller r) as [e'|] eqn:E.
  - intros [= <-]. eapply check_account_violation. exact E.
  - exact IH.
Qed.

Lemma validate_passes caller request :
  validate entitled caller request = None <->
  (forall r, In r request -> check_account entitled caller r = None).
Proof.
  induction request as [|r rest IH]; cbn [validate].
  - split; [intros _ r [] | reflexivity].
  - destruct (check_account entitled caller r) as [e|] eqn:E.
    + split; [discriminate|]. intros H.
      rewrite (H r (or_introl eq_refl)) in E. discriminate E.
    + rewrite IH. split.
      * intros H r' [<-|Hin]; [exact E | apply H; exact Hin].
      * intros H r' Hin. apply H. right. exact Hin.
Qed.

(** The three conditions together are the subset rule: the derivation
    capability admits no request the subset rule refuses. *)
Lemma check_account_passes caller k g :
  check_account entitled caller (k, g) = None <->
  exists h, grant_of k (grants caller) = Some h /\ subgrant g h = true.
Proof.
  unfold check_account, nested_signer_check, writer_check, escalation_check,
    subgrant.
  destruct (grant_of k (grants caller)) as [h|].
  - split.
    + intros H. exists h. split; [reflexivity|].
      destruct (signer g), (signer h), (entitled (program caller) k),
        (writable g), (writable h); cbn in H |- *;
        first [reflexivity | discriminate H].
    + intros (h' & Heq & Hsub). injection Heq as <-.
      destruct (signer g), (signer h), (entitled (program caller) k),
        (writable g), (writable h); cbn in Hsub |- *;
        first [reflexivity | discriminate Hsub].
  - split; [discriminate | intros (h & H & _); discriminate H].
Qed.

Lemma invoke_rejects caller below callee request r :
  In r request ->
  check_account entitled caller r <> None ->
  invoke entitled (caller :: below) callee request = Err PrivilegeViolation.
Proof.
  intros Hin Hbad. unfold invoke.
  destruct (validate entitled caller request) as [e|] eqn:E.
  - rewrite (validate_violation _ _ _ E). reflexivity.
  - exfalso. apply Hbad. apply (proj1 (validate_passes caller request) E). exact Hin.
Qed.


(** What one accepted call hands down. *)
Lemma invoke_accepted caller below callee request stack' :
  invoke entitled (caller :: below) callee request = Ok stack' ->
  stack' = mkFrame callee request :: caller :: below
  /\ forall k g, grant_of k request = Some g ->
       exists h, grant_of k (grants caller) = Some h /\ subgrant g h = true.
Proof.
  unfold invoke.
  destruct (validate entitled caller request) as [e|] eqn:E; [discriminate|].
  intros [= <-]. split; [reflexivity|].
  intros k g Hg. apply check_account_passes.
  apply (proj1 (validate_passes caller request) E).
  apply grant_of_In. exact Hg.
Qed.

(** Along a chain of accepted calls the grant of the running frame for
    an account stays within the grant the first frame of the chain
    holds for it. *)
Lemma invoke_chain_ceiling calls :
  forall f s stack_d k,
    invoke_chain entitled (f :: s) calls = Ok stack_d ->
    exists top rest,
      stack_d = top :: rest
      /\ forall h, grant_of k (grants top) = Some h ->
           exists h1, grant_of k (grants f) = Some h1 /\ subgrant h h1 = true.
Proof.
  induction calls as [|[callee request] calls IH]; intros f s stack_d k Hrun.
  - cbn [invoke_chain] in Hrun. injection Hrun as <-.
    exists f, s. split; [reflexivity|].
    intros h Hh. exists h. split; [exact Hh|].
    apply subgrant_flags. auto.
  - cbn [invoke_chain] in Hrun.
    destruct (invoke entitled (f :: s) callee request) as [stack1|e] eqn:E;
      [|discriminate].
    apply invoke_accepted in E. destruct E as (-> & Hdown).
    destruct (IH _ _ _ k Hrun) as (top & rest & -> & Htop).
    exists top, rest. split; [reflexivity|].
    intros h Hh. destruct (Htop h Hh) as (h1 & Hh1 & Hsub1).
    cbn [grants] in Hh1.
    destruct (Hdown k h1 Hh1) as (h0 & Hh0 & Hsub0).
    exists h0. split; [exact Hh0|].
    eapply subgrant_trans; eassumption.
Qed.

End Checks.



End PrivilegeFacts.

(* ===================================================================== *)
(** ** sol_memcpy and sol_memcmp *)
(* ===================================================================== *)

Section LibraryFacts.
Import Mem SolBpf.

Lemma u8_idem z : u8 (u8 z) = u8 z.
Proof. unfold u8. apply Z.mod_mod. lia. Qed.

Lemma sol_memcpy_loop_copies m dst src len :
  0 <= dst -> 0 <= src -> len <= INT_MAX ->
  dst + len <= 18446744073709551616 ->
  src + len <= 18446744073709551616 ->
  dst <= src \/ src + len <= dst ->
  forall (k : nat) (fuel : nat) (i : Z) (mi : mem),
    0 <= i -> i + Z.of_nat k = len -> (k <= fuel)%nat ->
    copied m dst src i mi ->
    exists m', sol_memcpy_loop fuel mi dst src len i = Some m'
               /\ copied m dst src len m'.
Proof.
  unfold INT_MAX. intros Hd Hs Hmax Hde Hse Hsafe k.
  induction k as [|k IH]; intros fuel i mi Hi Hik Hf Hinv.
  - assert (i = len) by lia. subst i. exists mi. split; [|exact Hinv].
    destruct fuel; cbn [sol_memcpy_loop]; rewrite Z.ltb_irrefl; reflexivity.
  - destruct fuel as [|fuel]; [lia|]. cbn [sol_memcpy_loop].
    replace (i <? len) with true by (symmetry; apply Z.ltb_lt; lia).
    rewrite int32_small by (unfold INT_MIN, INT_MAX; lia).
    apply IH; [lia | lia | lia |].
    rewrite !ptr_add_fits by lia.
    intros a. unfold store8, load8.
    destruct (a =? dst + i) eqn:E.
    + apply Z.eqb_eq in E. subst a.
      replace ((dst <=? dst + i) && (dst + i <? dst + (i + 1))) with true
        by (symmetry; apply andb_true_iff; split; [apply Z.leb_le | apply Z.ltb_lt]; lia).
      rewrite (Hinv (src + i)).
      replace ((dst <=? src + i) && (src + i <? dst + i)) with false.
      * rewrite u8_idem. f_equal. f_equal. lia.
      * symmetry. apply andb_false_iff.
        destruct Hsafe; [right; apply Z.ltb_ge | left; apply Z.leb_gt]; lia.
    + apply Z.eqb_neq in E. rewrite (Hinv a).
      destruct (dst <=? a) eqn:E1; cbn [andb]; [|reflexivity].
      apply Z.leb_le in E1.
      destruct (a <? dst + i) eqn:E2.
      * apply Z.ltb_lt in E2.
        replace (a <? dst + (i + 1)) with true by (symmetry; apply Z.ltb_lt; lia).
        reflexivity.
      * apply Z.ltb_ge in E2.
        replace (a <? dst + (i + 1)) with false by (symmetry; apply Z.ltb_ge; lia).
        reflexivity.
Qed.

(** X8: [sol_memcpy] between regions inside the address space, with the
    destination at or below the source or past its end: it returns, the
    [len] bytes of the destination hold what the source held, and every
    byte outside the destination is left as it was ([len <= 0] copies
    nothing). *)
Theorem sol_memcpy_copies :
  forall (m : mem) (dst src len : Z),
    0 <= dst -> 0 <= src -> len <= INT_MAX ->
    dst + len <= 18446744073709551616 ->
    src + len <= 18446744073709551616 ->
    dst <= src \/ src + len <= dst ->
    exists m',
      sol_memcpy m dst src len = Some m'
      /\ (forall k, 0 <= k < len -> load8 m' (dst + k) = load8 m (src + k))
      /\ (forall a, ~ (dst <= a < dst + len) -> m' a = m a).
Proof.
  intros m dst src len Hd Hs Hmax Hde Hse Hsafe.
  unfold sol_memcpy.
  destruct (Z_lt_le_dec len 0) as [Hneg|Hpos].
  - exists m. replace (Z.to_nat len) with 0%nat by lia.
    cbn [sol_memcpy_loop].
    replace (0 <? len) with false by (symmetry; apply Z.ltb_ge; lia).
    split; [reflexivity|]. split; [intros k Hk; lia | reflexivity].
  - destruct (sol_memcpy_loop_copies m dst src len Hd Hs Hmax Hde Hse Hsafe
                (Z.to_nat len) (Z.to_nat len) 0 m) as (m' & Hrun & Hinv);
      [lia | lia | lia | |].
    { intros a. replace ((dst <=? a) && (a <? dst + 0)) with false; [reflexivity|].
      symmetry. apply andb_false_iff.
      destruct (Z_lt_le_dec a dst); [left; apply Z.leb_gt | right; apply Z.ltb_ge]; lia. }
    exists m'. split; [exact Hrun|]. split.
    + intros k Hk. unfold load8. rewrite (Hinv (dst + k)).
      replace ((dst <=? dst + k) && (dst + k <? dst + len)) with true
        by (symmetry; apply andb_true_iff; split; [apply Z.leb_le | apply Z.ltb_lt]; lia).
      rewrite u8_idem. f_equal. f_equal. lia.
    + intros a Ha. rewrite (Hinv a).
      replace ((dst <=? a) && (a <? dst + len)) with false; [reflexivity|].
      symmetry. apply andb_false_iff.
      destruct (Z_lt_le_dec a dst); [left; apply Z.leb_gt; lia|].
      right. apply Z.ltb_ge. lia.
Qed.

Lemma sol_memcpy_copies_witness :
  exists m',
    sol_memcpy (Examples.input_memory 1) 8192 4104 32 = Some m'
    /\ load8 m' (8192 + 3) = load8 (Examples.input_memory 1) (4104 + 3).
Proof.
  destruct (sol_memcpy_copies (Examples.input_memory 1) 8192 4104 32)
    as (m' & Hrun & Hcopy & _);
    [lia | lia | unfold INT_MAX; lia | lia | lia | right; lia |].
  exists m'. split; [exact Hrun | apply Hcopy; lia].
Defined.

Lemma sol_memcpy_loop_replicates m dst src len :
  0 <= src -> src < dst -> len <= INT_MAX ->
  dst + len <= 18446744073709551616 ->
  forall (k : nat) (fuel : nat) (i : Z) (mi : mem),
    0 <= i -> i + Z.of_nat k = len -> (k <= fuel)%nat ->
    replicated m dst src (dst - src) i mi ->
    exists m', sol_memcpy_loop fuel mi dst src len i = Some m'
               /\ replicated m dst src (dst - src) len m'.
Proof.
  unfold INT_MAX. intros Hs Hd Hmax Hde k.
  induction k as [|k IH]; intros fuel i mi Hi Hik Hf Hinv.
  - assert (i = len) by lia. subst i. exists mi. split; [|exact Hinv].
    destruct fuel; cbn [sol_memcpy_loop]; rewrite Z.ltb_irrefl; reflexivity.
  - destruct fuel as [|fuel]; [lia|]. cbn [sol_memcpy_loop].
    replace (i <? len) with true by (symmetry; apply Z.ltb_lt; lia).
    rewrite int32_small by (unfold INT_MIN, INT_MAX; lia).
    apply IH; [lia | lia | lia |].
    rewrite !ptr_add_fits by lia.
    intros a. unfold store8, load8.
    destruct (a =? dst + i) eqn:E.
    + apply Z.eqb_eq in E. subst a.
      replace ((dst <=? dst + i) && (dst + i <? dst + (i + 1))) with true
        by (symmetry; apply andb_true_iff; split; [apply Z.leb_le | apply Z.ltb_lt]; lia).
      replace (dst + i - dst) with i by lia.
      rewrite (Hinv (src + i)).
      destruct (Z_lt_le_dec i (dst - src)) as [Hlow|Hhigh].
      * replace ((dst <=? src + i) && (src + i <? dst + i)) with false
          by (symmetry; apply andb_false_iff; left; apply Z.leb_gt; lia).
        rewrite Z.mod_small by lia. apply u8_idem.
      * replace ((dst <=? src + i) && (src + i <? dst + i)) with true
          by (symmetry; apply andb_true_iff; split;
              [apply Z.leb_le | apply Z.ltb_lt]; lia).
        rewrite !u8_idem.
        replace ((src + i - dst) mod (dst - src)) with (i mod (dst - src));
          [reflexivity|].
        replace (src + i - dst) with (i + (-1) * (dst - src)) by lia.
        symmetry. apply Z_mod_plus_full.
    + apply Z.eqb_neq in E. rewrite (Hinv a).
      destruct (dst <=? a) eqn:E1; cbn [andb]; [|reflexivity].
      apply Z.leb_le in E1.
      destruct (a <? dst + i) eqn:E2.
      * apply Z.ltb_lt in E2.
        replace (a <? dst + (i + 1)) with true by (symmetry; apply Z.ltb_lt; lia).
        reflexivity.
      * apply Z.ltb_ge in E2.
        replace (a <? dst + (i + 1)) with false by (symmetry; apply Z.ltb_ge; lia).
        reflexivity.
Qed.

(** X9: [sol_memcpy] to a destination above the source copies forward
    byte by byte, so where the regions overlap it reads bytes it has
    written: the byte [k] of the destination ends up holding what the
    byte [k mod (dst - src)] of the source held, the first [dst - src]
    bytes of the source repeated. *)
Theorem sol_memcpy_overlap_replicates :
  forall (m : mem) (dst src len : Z),
    0 <= src -> src < dst -> len <= INT_MAX ->
    dst + len <= 18446744073709551616 ->
    exists m',
      sol_memcpy m dst src len = Some m'
      /\ (forall k, 0 <= k < len ->
            load8 m' (dst + k) = load8 m (src + k mod (dst - src)))
      /\ (forall a, ~ (dst <= a < dst + len) -> m' a = m a).
Proof.
  intros m dst src len Hs Hd Hmax Hde.
  unfold sol_memcpy.
  destruct (Z_lt_le_dec len 0) as [Hneg|Hpos].
  - exists m. replace (Z.to_nat len) with 0%nat by lia.
    cbn [sol_memcpy_loop].
    replace (0 <? len) with false by (symmetry; apply Z.ltb_ge; lia).
    split; [reflexivity|]. split; [intros k Hk; lia | reflexivity].
  - destruct (sol_memcpy_loop_replicates m dst src len Hs Hd Hmax Hde
                (Z.to_nat len) (Z.to_nat len) 0 m) as (m' & Hrun & Hinv);
      [lia | lia | lia | |].
    { intros a. replace ((dst <=? a) && (a <? dst + 0)) with false; [reflexivity|].
      symmetry. apply andb_false_iff.
      destruct (Z_lt_le_dec a dst); [left; apply Z.leb_gt | right; apply Z.ltb_ge]; lia. }
    exists m'. split; [exact Hrun|]. split.
    + intros k Hk. unfold load8. rewrite (Hinv (dst + k)).
      replace ((dst <=? dst + k) && (dst + k <? dst + len)) with true
        by (symmetry; apply andb_true_iff; split; [apply Z.leb_le | apply Z.ltb_lt]; lia).
      rewrite u8_idem. replace (dst + k - dst) with k by lia. reflexivity.
    + intros a Ha. rewrite (Hinv a).
      replace ((dst <=? a) && (a <? dst + len)) with false; [reflexivity|].
      symmetry. apply andb_false_iff.
      destruct (Z_lt_le_dec a dst); [left; apply Z.leb_gt; lia|].
      right. apply Z.ltb_ge. lia.
Qed.

Lemma sol_memcpy_overlap_replicates_witness :
  exists m',
    sol_memcpy (Examples.input_memory 1) 4097 4096 3 = Some m'
    /\ load8 m' (4097 + 2) = load8 (Examples.input_memory 1) (4096 + 2 mod (4097 - 4096)).
Proof.
  destruct (sol_memcpy_overlap_replicates (Examples.input_memory 1) 4097 4096 3)
    as (m' & Hrun & Hfill & _);
    [lia | lia | unfold INT_MAX; lia | lia |].
  exists m'. split; [exact Hrun | apply Hfill; lia].
Defined.

Lemma load8_range m p : 0 <= load8 m p < 256.
Proof. apply u8_range. Qed.

Lemma u8_diff_zero a b :
  0 <= a < 256 -> 0 <= b < 256 -> (u8 (a - b) = 0 <-> a = b).
Proof.
  intros Ha Hb. unfold u8. split.
  - intros H. apply Z.mod_divide in H; [|lia].
    destruct H as [q Hq]. lia.
  - intros ->. rewrite Z.sub_diag. reflexivity.
Qed.

Lemma sol_memcmp_loop_compared m s1 s2 n :
  n <= INT_MAX ->
  forall (k : nat) (fuel : nat) (i : Z),
    0 <= i -> i + Z.of_nat k = n -> (k <= fuel)%nat ->
    exists r, sol_memcmp_loop fuel m s1 s2 n i = Some r
              /\ compared m s1 s2 n i r.
Proof.
  unfold INT_MAX. intros Hmax k.
  induction k as [|k IH]; intros fuel i Hi Hik Hf.
  - assert (i = n) by lia. subst i. exists 0. split.
    + destruct fuel; cbn [sol_memcmp_loop]; rewrite Z.ltb_irrefl; reflexivity.
    + split; [lia|]. split; [|intros H; contradiction].
      split; [intros _ j Hj; lia | reflexivity].
  - destruct fuel as [|fuel]; [lia|]. cbn [sol_memcmp_loop].
    replace (i <? n) with true by (symmetry; apply Z.ltb_lt; lia).
    pose proof (load8_range m (ptr_add s1 i)) as H1.
    pose proof (load8_range m (ptr_add s2 i)) as H2.
    pose proof (u8_range (load8 m (ptr_add s1 i) - load8 m (ptr_add s2 i))) as Hr.
    destruct (u8 (load8 m (ptr_add s1 i) - load8 m (ptr_add s2 i)) =? 0) eqn:E;
      cbn [negb].
    + apply Z.eqb_eq in E. apply (proj1 (u8_diff_zero _ _ H1 H2)) in E.
      rewrite int32_small by (unfold INT_MIN, INT_MAX; lia).
      destruct (IH fuel (i + 1)) as (r & Hrun & Hrange & Hzero & Hdiff);
        [lia | lia | lia |].
      exists r. split; [exact Hrun|]. split; [exact Hrange|]. split.
      * rewrite Hzero. split.
        -- intros H j Hj. destruct (Z.eq_dec j i) as [->|Hne]; [exact E|].
           apply H. lia.
        -- intros H j Hj. apply H. lia.
      * intros Hr0. destruct (Hdiff Hr0) as (j & Hj & Hbefore & Hne & Hval).
        exists j. split; [lia|]. split; [|split; assumption].
        intros j' Hj'. destruct (Z.eq_dec j' i) as [->|Hne']; [exact E|].
        apply Hbefore. lia.
    + apply Z.eqb_neq in E.
      assert (Hne : load8 m (ptr_add s1 i) <> load8 m (ptr_add s2 i)).
      { intros Heq. apply E. apply (proj2 (u8_diff_zero _ _ H1 H2)). exact Heq. }
      eexists. split; [reflexivity|]. split; [lia|]. split.
      * split; [intros H0; contradiction|].
        intros H. exfalso. apply Hne. apply H. lia.
      * intros _. exists i. split; [lia|]. split; [intros j' Hj'; lia|].
        split; [exact Hne | reflexivity].
Qed.

Lemma sol_memcmp_compared m s1 s2 n :
  n <= INT_MAX ->
  exists r, sol_memcmp m s1 s2 n = Some r /\ compared m s1 s2 n 0 r.
Proof.
  intros Hmax. unfold sol_memcmp.
  destruct (Z_lt_le_dec n 0) as [Hneg|Hpos].
  - exists 0. replace (Z.to_nat n) with 0%nat by lia.
    cbn [sol_memcmp_loop].
    replace (0 <? n) with false by (symmetry; apply Z.ltb_ge; lia).
    split; [reflexivity|]. split; [lia|]. split; [|intros H; contradiction].
    split; [intros _ j Hj; lia | reflexivity].
  - apply (sol_memcmp_loop_compared m s1 s2 n Hmax (Z.to_nat n)); lia.
Qed.

(** X10: [sol_memcmp] returns 0 exactly when the two regions agree on
    their first [n] bytes; otherwise it returns the difference of the
    first two bytes that differ taken as a [uint8_t], a value from 1 to
    255: the sign of the difference is lost. *)
Theorem sol_memcmp_zero_iff_equal :
  forall (m : mem) (s1 s2 n : Z),
    n <= INT_MAX ->
    exists r,
      sol_memcmp m s1 s2 n = Some r
      /\ 0 <= r <= 255
      /\ (r = 0 <->
          forall j, 0 <= j < n ->
            load8 m (ptr_add s1 j) = load8 m (ptr_add s2 j))
      /\ (r <> 0 ->
          exists j, 0 <= j < n
            /\ (forall j', 0 <= j' < j ->
                  load8 m (ptr_add s1 j') = load8 m (ptr_add s2 j'))
            /\ load8 m (ptr_add s1 j) <> load8 m (ptr_add s2 j)
            /\ r = u8 (load8 m (ptr_add s1 j) - load8 m (ptr_add s2 j))).
Proof.
  intros m s1 s2 n Hmax.
  destruct (sol_memcmp_compared m s1 s2 n Hmax) as (r & Hrun & Hc).
  exists r. split; [exact Hrun | exact Hc].
Qed.

Lemma sol_memcmp_zero_iff_equal_witness :
  exists r,
    sol_memcmp (Examples.input_memory 1) 4104 4187 32 = Some r
    /\ 0 <= r <= 255.
Proof.
  destruct (sol_memcmp_zero_iff_equal (Examples.input_memory 1) 4104 4187 32)
    as (r & Hrun & Hrange & _); [unfold INT_MAX; lia|].
  exists r. split; [exact Hrun | exact Hrange].
Defined.

(** X12: [SolPubkey_same] holds of two keys exactly when [sol_memcmp]
    over [sizeof(SolPubkey)] bytes returns 0. *)
Theorem SolPubkey_same_is_memcmp :
  forall (m : mem) (one two : Z),
    SolPubkey_same m one two = true <->
    sol_memcmp m one two sizeof_SolPubkey = Some 0.
Proof.
  intros m one two.
  destruct (sol_memcmp_compared m one two sizeof_SolPubkey)
    as (r & Hrun & _ & Hzero & _); [unfold INT_MAX; cbv; discriminate|].
  rewrite Hrun. unfold SolPubkey_same.
  rewrite SolPubkey_same_from_spec.
  change (0 + Z.of_nat (Z.to_nat sizeof_SolPubkey)) with sizeof_SolPubkey.
  rewrite <- Hzero. split; [intros ->; reflexivity | intros [= ->]; reflexivity].
Qed.

Lemma sol_memcpy_copied m dst src len :
  0 <= dst -> 0 <= src -> 0 <= len <= INT_MAX ->
  dst + len <= 18446744073709551616 ->
  src + len <= 18446744073709551616 ->
  dst <= src \/ src + len <= dst ->
  exists m', sol_memcpy m dst src len = Some m' /\ copied m dst src len m'.
Proof.
  intros Hd Hs Hlen Hde Hse Hsafe. unfold sol_memcpy.
  apply (sol_memcpy_loop_copies m dst src len Hd Hs (proj2 Hlen) Hde Hse Hsafe
           (Z.to_nat len)); [lia | lia | lia |].
  intros a. replace ((dst <=? a) && (a <? dst + 0)) with false; [reflexivity|].
  symmetry. apply andb_false_iff.
  destruct (Z_lt_le_dec a dst); [left; apply Z.leb_gt | right; apply Z.ltb_ge]; lia.
Qed.

(** X11: after [sol_memcpy] between two regions that do not overlap,
    [sol_memcmp] of the destination and the source returns 0. *)
Theorem sol_memcmp_after_sol_memcpy :
  forall (m : mem) (dst src len : Z),
    0 <= dst -> 0 <= src -> len <= INT_MAX ->
    dst + len <= 18446744073709551616 ->
    src + len <= 18446744073709551616 ->
    dst + len <= src \/ src + len <= dst ->
    exists m',
      sol_memcpy m dst src len = Some m'
      /\ sol_memcmp m' dst src len = Some 0.
Proof.
  intros m dst src len Hd Hs Hmax Hde Hse Hsafe.
  destruct (Z_lt_le_dec len 0) as [Hneg|Hpos].
  - exists m. unfold sol_memcpy, sol_memcmp.
    replace (Z.to_nat len) with 0%nat by lia.
    cbn [sol_memcpy_loop sol_memcmp_loop].
    replace (0 <? len) with false by (symmetry; apply Z.ltb_ge; lia).
    split; reflexivity.
  - destruct (sol_memcpy_copied m dst src len) as (m' & Hrun & Hinv);
      [lia | lia | lia | lia | lia | lia |].
    exists m'. split; [exact Hrun|].
    destruct (sol_memcmp_compared m' dst src len Hmax) as (r & Hcmp & _ & Hzero & _).
    rewrite Hcmp. f_equal. apply Hzero.
    intros j Hj. rewrite !ptr_add_fits by lia.
    unfold load8. rewrite (Hinv (dst + j)), (Hinv (src + j)).
    replace ((dst <=? dst + j) && (dst + j <? dst + len)) with true
      by (symmetry; apply andb_true_iff; split; [apply Z.leb_le | apply Z.ltb_lt]; lia).
    replace ((dst <=? src + j) && (src + j <? dst + len)) with false.
    + rewrite u8_idem. f_equal. f_equal. lia.
    + symmetry. apply andb_false_iff.
      destruct Hsafe; [right; apply Z.ltb_ge | left; apply Z.leb_gt]; lia.
Qed.

Lemma sol_memcmp_after_sol_memcpy_witness :
  exists m',
    sol_memcpy (Examples.input_memory 1) 8192 4104 32 = Some m'
    /\ sol_memcmp m' 8192 4104 32 = Some 0.
Proof.
  apply (sol_memcmp_after_sol_memcpy (Examples.input_memory 1) 8192 4104 32);
    [lia | lia | unfold INT_MAX; lia | lia | lia | right; lia].
Defined.

End LibraryFacts.

(* ===================================================================== *)
(** ** The two modes of sol_deserialize *)
(* ===================================================================== *)

Section ModeFacts.
Import Mem SolBpf Wire.

(** X20: bounded mode with a capacity that reaches the declared count is
    exact mode with that count: both calls succeed and leave the same
    views, the same instruction-data pointer and length; bounded mode
    reports the count. *)
Theorem bounded_mode_with_room_is_exact_mode :
  forall (m : mem) (input : Z) (a : Z -> SolKeyedAccounts) (v d dl ka_len : Z),
    read_u64 m input <= ka_len ->
    exists st_b st_e,
      sol_deserialize m input (mkOut a (Some v) d dl) ka_len = Some (true, st_b)
      /\ sol_deserialize m input (mkOut a None d dl) (read_u64 m input)
         = Some (true, st_e)
      /\ ka_len_out st_b = Some (read_u64 m input)
      /\ ka_len_out st_e = None
      /\ ka st_b = ka st_e
      /\ data st_b = data st_e
      /\ data_len st_b = data_len st_e.
Proof.
  intros m input a v d dl ka_len Hroom.
  pose proof (read_u64_range m input) as Hc.
  unfold sol_deserialize. cbn [ka_len_out ka data data_len].
  rewrite bounded_effective_count, Z.eqb_refl. cbn [negb].
  replace (Z.min ka_len (read_u64 m input)) with (read_u64 m input) by lia.
  unfold deserialize_body. cbn [ka ka_len_out].
  destruct (deserialize_loop (Z.to_nat (read_u64 m input)) m (read_u64 m input) 0
              (ptr_add input sizeof_uint64_t) a) as [[input' a']|] eqn:E.
  - eexists. eexists. repeat split.
  - exfalso. revert E. apply deserialize_loop_fuel;
      [lia | unfold INT_MIN, INT_MAX; lia |].
    rewrite Z2Nat.id by lia. apply steps_left_start. lia.
Qed.

Lemma bounded_mode_with_room_is_exact_mode_witness :
  exists st_b st_e,
    sol_deserialize (Examples.input_memory 1) Examples.base
      (mkOut (fun _ => DupAccounts.blank_view) (Some 0) 0 0) 9 = Some (true, st_b)
    /\ sol_deserialize (Examples.input_memory 1) Examples.base
         (mkOut (fun _ => DupAccounts.blank_view) None 0 0)
         (read_u64 (Examples.input_memory 1) Examples.base) = Some (true, st_e)
    /\ ka st_b = ka st_e.
Proof.
  destruct (bounded_mode_with_room_is_exact_mode (Examples.input_memory 1)
              Examples.base (fun _ => DupAccounts.blank_view) 0 0 0 9)
    as (st_b & st_e & Hb & He & _ & _ & Hka & _); [evaluate|].
  exists st_b, st_e. split; [exact Hb|]. split; [exact He | exact Hka].
Defined.

End ModeFacts.

(* ===================================================================== *)
(** ** Writes through the views *)
(* ===================================================================== *)

Section InPlaceFacts.
Import Mem SolBpf Wire.

Lemma length_set_nth {A : Type} (l : list A) k x :
  length (set_nth l k x) = length l.
Proof.
  revert k. induction l as [|h t IH]; intros [|k]; cbn [set_nth length];
    try reflexivity. f_equal. apply IH.
Qed.

Lemma nth_set_nth (l : list Z) k x j :
  (k < length l)%nat ->
  nth j (set_nth l k x) 0 = if Nat.eqb j k then x else nth j l 0.
Proof.
  revert k j. induction l as [|h t IH]; intros k j Hk; [cbn in Hk; lia|].
  destruct k as [|k], j as [|j]; cbn [set_nth nth Nat.eqb]; try reflexivity.
  apply IH. cbn in Hk. lia.
Qed.

Lemma set_nth_split {A : Type} (l : list A) k a x :
  nth_error l k = Some a ->
  l = firstn k l ++ a :: skipn (S k) l
  /\ set_nth l k x = firstn k l ++ x :: skipn (S k) l.
Proof.
  revert k. induction l as [|h t IH]; intros [|k] H; try discriminate.
  - injection H as ->. split; reflexivity.
  - destruct (IH k H) as [H1 H2]. cbn [firstn skipn app set_nth].
    split; f_equal; assumption.
Qed.

(** Replacing a block of the buffer by one of the same length changes
    the memory at the addresses of the block only. *)
Lemma place_replace base pre blk blk' post rest addr :
  length blk' = length blk ->
  place base (pre ++ blk' ++ post) rest addr
  = if (base + Z.of_nat (length pre) <=? addr)
       && (addr <? base + Z.of_nat (length pre) + Z.of_nat (length blk))
    then nth (Z.to_nat (addr - base - Z.of_nat (length pre))) blk' 0
    else place base (pre ++ blk ++ post) rest addr.
Proof.
  intros Hlen.
  destruct ((base + Z.of_nat (length pre) <=? addr)
            && (addr <? base + Z.of_nat (length pre) + Z.of_nat (length blk))) eqn:E.
  - apply andb_true_iff in E. destruct E as [E1 E2].
    apply Z.leb_le in E1. apply Z.ltb_lt in E2.
    replace addr with (base + Z.of_nat (length pre)
                       + (addr - base - Z.of_nat (length pre))) at 1 by lia.
    apply place_block. lia.
  - unfold place. rewrite !length_app, Hlen.
    destruct ((base <=? addr)
              && (addr <? base + Z.of_nat (length pre + (length blk + length post))))
      eqn:E0; [|reflexivity].
    apply andb_true_iff in E0. destruct E0 as [E1 E2].
    apply Z.leb_le in E1. apply Z.ltb_lt in E2.
    apply andb_false_iff in E.
    destruct (Z_lt_le_dec addr (base + Z.of_nat (length pre))) as [Hlow|Hhigh].
    + rewrite !app_nth1 by lia. reflexivity.
    + assert (Hpost : base + Z.of_nat (length pre) + Z.of_nat (length blk) <= addr).
      { destruct E as [E|E]; [apply Z.leb_gt in E; lia | apply Z.ltb_ge in E; lia]. }
      rewrite !(app_nth2 pre) by lia.
      rewrite (app_nth2 blk') by lia. rewrite (app_nth2 blk) by lia.
      rewrite Hlen. reflexivity.
Qed.

Lemma store8_place base pre blk post rest k v addr :
  (k < length blk)%nat ->
  store8 (place base (pre ++ blk ++ post) rest)
         (base + Z.of_nat (length pre) + Z.of_nat k) v addr
  = place base (pre ++ set_nth blk k (u8 v) ++ post) rest addr.
Proof.
  intros Hk.
  rewrite (place_replace base pre blk (set_nth blk k (u8 v)) post rest addr)
    by apply length_set_nth.
  unfold store8.
  destruct (addr =? base + Z.of_nat (length pre) + Z.of_nat k) eqn:E.
  - apply Z.eqb_eq in E. subst addr.
    replace ((base + Z.of_nat (length pre)
              <=? base + Z.of_nat (length pre) + Z.of_nat k)
             && (base + Z.of_nat (length pre) + Z.of_nat k
                 <? base + Z.of_nat (length pre) + Z.of_nat (length blk)))
      with true
      by (symmetry; apply andb_true_iff; split;
          [apply Z.leb_le | apply Z.ltb_lt]; lia).
    rewrite nth_set_nth by exact Hk.
    replace (Z.to_nat (base + Z.of_nat (length pre) + Z.of_nat k
                       - base - Z.of_nat (length pre))) with k by lia.
    rewrite Nat.eqb_refl. reflexivity.
  - apply Z.eqb_neq in E.
    destruct ((base + Z.of_nat (length pre) <=? addr)
              && (addr <? base + Z.of_nat (length pre) + Z.of_nat (length blk)))
      eqn:E0; [|reflexivity].
    apply andb_true_iff in E0. destruct E0 as [E1 E2].
    apply Z.leb_le in E1. apply Z.ltb_lt in E2.
    rewrite nth_set_nth by exact Hk.
    replace (Nat.eqb (Z.to_nat (addr - base - Z.of_nat (length pre))) k) with false
      by (symmetry; apply Nat.eqb_neq; lia).
    replace addr with (base + Z.of_nat (length pre)
                       + (addr - base - Z.of_nat (length pre))) at 1 by lia.
    apply place_block. lia.
Qed.

(** Settles the comparisons of addresses in the goal. *)
Ltac decide_eqb :=
  repeat match goal with
         | |- context [?a =? ?b] =>
             first [ replace (a =? b) with true
                       by (symmetry; apply Z.eqb_eq; lia)
                   | replace (a =? b) with false
                       by (symmetry; apply Z.eqb_neq; lia) ]
         end;
  cbv iota.

Lemma write_u64_place base pre old post rest v addr :
  0 <= base ->
  base + Z.of_nat (length (pre ++ le64 old ++ post)) <= 18446744073709551616 ->
  write_u64 (place base (pre ++ le64 old ++ post) rest)
            (base + Z.of_nat (length pre)) v addr
  = place base (pre ++ le64 v ++ post) rest addr.
Proof.
  intros Hb Hfit. rewrite !length_app, length_le64 in Hfit.
  rewrite (place_replace base pre (le64 old) (le64 v) post rest addr)
    by reflexivity.
  rewrite length_le64. unfold write_u64.
  rewrite !ptr_add_fits by lia.
  set (p := base + Z.of_nat (length pre)).
  destruct ((p <=? addr) && (addr <? p + Z.of_nat 8)) eqn:E.
  - apply andb_true_iff in E. destruct E as [E1 E2].
    apply Z.leb_le in E1. apply Z.ltb_lt in E2.
    assert (H : exists k, 0 <= k < 8 /\ addr = p + k)
      by (exists (addr - p); lia).
    destruct H as (k & Hk & ->).
    replace (p + k - base - Z.of_nat (length pre)) with k by (unfold p; lia).
    rewrite nth_le64 by exact Hk.
    assert (Hcase : k = 0 \/ k = 1 \/ k = 2 \/ k = 3
                    \/ k = 4 \/ k = 5 \/ k = 6 \/ k = 7) by lia.
    repeat (destruct Hcase as [Hc|Hcase]; [subst k; decide_eqb; reflexivity|]).
    subst k. decide_eqb. reflexivity.
  - apply andb_false_iff in E.
    assert (Hout : addr < p \/ p + 8 <= addr)
      by (destruct E as [E|E]; [apply Z.leb_gt in E | apply Z.ltb_ge in E]; lia).
    repeat match goal with
           | |- context [addr =? ?b] =>
               replace (addr =? b) with false by (symmetry; apply Z.eqb_neq; lia)
           end.
    reflexivity.
Qed.

Lemma serialize_set_nth accounts idata i a a' :
  nth_error accounts i = Some a ->
  serialize (set_nth accounts i a') idata
  = (le64 (Z.of_nat (length accounts))
       ++ flat_map serialize_account (firstn i accounts))
    ++ serialize_account a'
    ++ (flat_map serialize_account (skipn (S i) accounts)
          ++ le64 (Z.of_nat (length idata)) ++ idata).
Proof.
  intros H. unfold serialize. rewrite length_set_nth.
  rewrite (proj2 (set_nth_split accounts i a a' H)).
  rewrite flat_map_app. cbn [flat_map].
  rewrite <- !app_assoc. reflexivity.
Qed.

Section InPlace.
Variable accounts : list Account.
Variable idata : list Z.
Variable base : Z.
Variable rest : mem.
Hypothesis Hwf : Forall wf_account accounts.
Hypothesis Hbase : 0 <= base.
Hypothesis Hinside :
  base + Z.of_nat (length (serialize accounts idata)) < 18446744073709551616.

Local Abbreviation m := (place base (serialize accounts idata) rest).

Lemma serialized_views :
  Z.of_nat (length accounts) <= INT_MAX ->
  forall a0 d dl,
  exists st',
    sol_deserialize m base (mkOut a0 None d dl) (Z.of_nat (length accounts))
    = Some (true, st')
    /\ (forall i a, nth_error accounts i = Some a ->
         ka st' (Z.of_nat i)
         = mkKA (base + (8 + records_size (firstn i accounts)))
                (base + (8 + records_size (firstn i accounts) + 32))
                (Z.of_nat (length (account_data a)))
                (base + (8 + records_size (firstn i accounts) + 48))
                (base + (8 + records_size (firstn i accounts) + 48
                         + Z.of_nat (length (account_data a)))))
    /\ data_len st' = Z.of_nat (length idata)
    /\ data st' = base + (8 + records_size accounts + 8).
Proof.
  intros Hmax a0 d dl.
  unfold sol_deserialize. cbn [ka_len_out].
  rewrite (serialized_count accounts idata base rest Hwf Hbase Hinside), Z.eqb_refl.
  cbn [negb].
  destruct (deserialize_body_layout m base (mkOut a0 None d dl)
              (Z.of_nat (length accounts)))
    as (st' & Hrun & _ & Hview & _ & Hdl & Hd); [lia|].
  exists st'. split; [exact Hrun|]. split; [|].
  - intros i a Ha.
    assert (Hi : (i < length accounts)%nat) by (apply nth_error_Some; congruence).
    rewrite Hview by lia. rewrite Nat2Z.id.
    rewrite (serialized_offset accounts idata base rest Hwf Hbase Hinside) by lia.
    pose proof (record_inside accounts idata Hwf i a Ha) as Hin.
    unfold record_size in Hin.
    pose proof (records_size_nonneg (firstn i accounts)) as Hn.
    unfold view_at.
    rewrite !(ptr_add_fits base) by lia.
    rewrite (serialized_data_length accounts idata base rest Hwf Hbase Hinside i a Ha).
    rewrite !(ptr_add_fits base) by lia.
    reflexivity.
  - rewrite Nat2Z.id in Hdl, Hd.
    rewrite (serialized_offset accounts idata base rest Hwf Hbase Hinside) in Hdl, Hd
      by lia.
    rewrite firstn_all in Hdl, Hd.
    assert (Hend : 8 + records_size accounts + 8 + Z.of_nat (length idata)
                   = Z.of_nat (length (serialize accounts idata))).
    { unfold serialize. rewrite !length_app, !length_le64, !Nat2Z.inj_add.
      rewrite length_records by exact Hwf. lia. }
    pose proof (records_size_nonneg accounts) as Hrs.
    pose proof Hinside as Hin'.
    rewrite ptr_add_fits in Hdl, Hd by lia.
    destruct (serialized_trailer accounts idata base rest Hwf Hbase Hinside)
      as [Htl _].
    split; [rewrite Hdl; exact Htl | exact Hd].
Qed.

(** X18: a data byte written through a decoded view needs no
    serialization back: after the store, the memory is the one in which
    the host had serialized the accounts with that data byte changed. *)
Theorem data_written_in_place_is_serialized :
  Z.of_nat (length accounts) <= INT_MAX ->
  forall a0 d dl,
  exists st',
    sol_deserialize m base (mkOut a0 None d dl) (Z.of_nat (length accounts))
    = Some (true, st')
    /\ forall i a k v,
         nth_error accounts i = Some a ->
         0 <= k < userdata_len (ka st' (Z.of_nat i)) ->
         forall addr,
           store8 m (ptr_add (userdata (ka st' (Z.of_nat i))) k) v addr
           = place base
               (serialize (set_nth accounts i (set_data_byte a (Z.to_nat k) v)) idata)
               rest addr.
Proof.
  intros Hmax a0 d dl.
  destruct (serialized_views Hmax a0 d dl) as (st' & Hrun & Hview & _).
  exists st'. split; [exact Hrun|].
  intros i a k v Ha Hk addr.
  rewrite (Hview i a Ha) in Hk |- *. cbn [userdata userdata_len] in Hk |- *.
  pose proof (record_inside accounts idata Hwf i a Ha) as Hin.
  unfold record_size in Hin.
  pose proof (records_size_nonneg (firstn i accounts)) as Hn.
  destruct (proj1 (Forall_forall _ _) Hwf a (nth_error_In _ _ Ha)) as [Hli Hlo].
  rewrite ptr_add_fits by lia.
  rewrite (serialize_split accounts idata i a Ha).
  rewrite (serialize_set_nth accounts idata i a _ Ha).
  set (front := le64 (Z.of_nat (length accounts))
                  ++ flat_map serialize_account (firstn i accounts)).
  set (back := flat_map serialize_account (skipn (S i) accounts)
                 ++ le64 (Z.of_nat (length idata)) ++ idata).
  unfold serialize_account, set_data_byte.
  cbn [identity balance account_data owner_identity].
  rewrite length_set_nth.
  set (head := identity a ++ le64 (balance a)
                 ++ le64 (Z.of_nat (length (account_data a)))).
  replace (front ++ (identity a ++ le64 (balance a)
                       ++ le64 (Z.of_nat (length (account_data a)))
                       ++ account_data a ++ owner_identity a) ++ back)
    with ((front ++ head) ++ account_data a ++ (owner_identity a ++ back))
    by (unfold head; rewrite <- !app_assoc; reflexivity).
  replace (front ++ (identity a ++ le64 (balance a)
                       ++ le64 (Z.of_nat (length (account_data a)))
                       ++ set_nth (account_data a) (Z.to_nat k) (u8 v)
                       ++ owner_identity a) ++ back)
    with ((front ++ head) ++ set_nth (account_data a) (Z.to_nat k) (u8 v)
            ++ (owner_identity a ++ back))
    by (unfold head; rewrite <- !app_assoc; reflexivity).
  replace (base + (8 + records_size (firstn i accounts) + 48) + k)
    with (base + Z.of_nat (length (front ++ head)) + Z.of_nat (Z.to_nat k)).
  - apply store8_place. lia.
  - rewrite length_app, Nat2Z.inj_add. unfold front.
    rewrite (length_prefix accounts idata Hwf). unfold head.
    rewrite !length_app, !length_le64, Hli. lia.
Qed.

(** X19: a balance written through a decoded view needs no
    serialization back: after the 64-bit write, the memory is the one in
    which the host had serialized the accounts with that balance. *)
Theorem balance_written_in_place_is_serialized :
  Z.of_nat (length accounts) <= INT_MAX ->
  forall a0 d dl,
  exists st',
    sol_deserialize m base (mkOut a0 None d dl) (Z.of_nat (length accounts))
    = Some (true, st')
    /\ forall i a v,
         nth_error accounts i = Some a ->
         forall addr,
           write_u64 m (tokens (ka st' (Z.of_nat i))) v addr
           = place base (serialize (set_nth accounts i (set_balance a v)) idata)
               rest addr.
Proof.
  intros Hmax a0 d dl.
  destruct (serialized_views Hmax a0 d dl) as (st' & Hrun & Hview & _).
  exists st'. split; [exact Hrun|].
  intros i a v Ha addr.
  rewrite (Hview i a Ha). cbn [tokens].
  destruct (proj1 (Forall_forall _ _) Hwf a (nth_error_In _ _ Ha)) as [Hli Hlo].
  assert (Hfit := Z.lt_le_incl _ _ Hinside).
  rewrite (serialize_split accounts idata i a Ha) in Hfit |- *.
  rewrite (serialize_set_nth accounts idata i a _ Ha).
  set (front := le64 (Z.of_nat (length accounts))
                  ++ flat_map serialize_account (firstn i accounts)) in *.
  set (back := flat_map serialize_account (skipn (S i) accounts)
                 ++ le64 (Z.of_nat (length idata)) ++ idata) in *.
  unfold serialize_account, set_balance in *.
  cbn [identity balance account_data owner_identity].
  set (tail := le64 (Z.of_nat (length (account_data a)))
                 ++ account_data a ++ owner_identity a) in *.
  replace (front ++ (identity a ++ le64 (balance a) ++ tail) ++ back)
    with ((front ++ identity a) ++ le64 (balance a) ++ (tail ++ back)) in *
    by (rewrite <- !app_assoc; reflexivity).
  replace (front ++ (identity a ++ le64 v ++ tail) ++ back)
    with ((front ++ identity a) ++ le64 v ++ (tail ++ back))
    by (rewrite <- !app_assoc; reflexivity).
  replace (base + (8 + records_size (firstn i accounts) + 32))
    with (base + Z.of_nat (length (front ++ identity a))).
  - apply write_u64_place; assumption.
  - rewrite length_app, Nat2Z.inj_add. unfold front.
    rewrite (length_prefix accounts idata Hwf), Hli. lia.
Qed.
End InPlace.

Lemma data_written_in_place_is_serialized_witness :
  store8 (Examples.input_memory 1)
    (ptr_add (userdata (ka (Examples.decoded_outputs 1) (Z.of_nat 2))) 0) 9 4315
  = place Examples.base
      (serialize
         (set_nth Examples.four_accounts 2
            (set_data_byte (mkAccount (Examples.pubkey_bytes 3) 300 [5]
                              (Examples.pubkey_bytes 13)) (Z.to_nat 0) 9))
         [1])
      Examples.zero_memory 4315.
Proof.
  destruct (data_written_in_place_is_serialized Examples.four_accounts [1]
              Examples.base Examples.zero_memory)
    with (a0 := fun _ : Z => DupAccounts.blank_view) (d := 0) (dl := 0)
    as (st' & Hrun & Hwrite).
  - repeat constructor.
  - evaluate.
  - evaluate.
  - evaluate.
  - assert (Hst : sol_deserialize (Examples.input_memory 1) Examples.base
                    Examples.exact_outputs 4
                  = Some (true, Examples.decoded_outputs 1))
      by (vm_compute; reflexivity).
    assert (Heq : st' = Examples.decoded_outputs 1).
    { change (sol_deserialize (Examples.input_memory 1) Examples.base
                Examples.exact_outputs 4 = Some (true, st')) in Hrun.
      rewrite Hst in Hrun. injection Hrun as <-. reflexivity. }
    subst st'. apply Hwrite; [reflexivity | evaluate].
Defined.

Lemma balance_written_in_place_is_serialized_witness :
  write_u64 (Examples.input_memory 1)
    (tokens (ka (Examples.decoded_outputs 1) (Z.of_nat 1))) 199 4219
  = place Examples.base
      (serialize
         (set_nth Examples.four_accounts 1
            (set_balance (mkAccount (Examples.pubkey_bytes 2) 200 []
                            (Examples.pubkey_bytes 12)) 199))
         [1])
      Examples.zero_memory 4219.
Proof.
  destruct (balance_written_in_place_is_serialized Examples.four_accounts [1]
              Examples.base Examples.zero_memory)
    with (a0 := fun _ : Z => DupAccounts.blank_view) (d := 0) (dl := 0)
    as (st' & Hrun & Hwrite).
  - repeat constructor.
  - evaluate.
  - evaluate.
  - evaluate.
  - assert (Hst : sol_deserialize (Examples.input_memory 1) Examples.base
                    Examples.exact_outputs 4
                  = Some (true, Examples.decoded_outputs 1))
      by (vm_compute; reflexivity).
    assert (Heq : st' = Examples.decoded_outputs 1).
    { change (sol_deserialize (Examples.input_memory 1) Examples.base
                Examples.exact_outputs 4 = Some (true, st')) in Hrun.
      rewrite Hst in Hrun. injection Hrun as <-. reflexivity. }
    subst st'. apply Hwrite. reflexivity.
Defined.

End InPlaceFacts.

(* ===================================================================== *)
(** ** The printing functions *)
(* ===================================================================== *)

Section PrintFacts.
Import Mem SolBpf Wire.

Lemma sol_print_record t j b :
  0 <= j <= INT_MAX -> 0 <= b < 18446744073709551616 ->
  sol_print t 0 0 0 j b = t ++ [(0, 0, 0, j, b)].
Proof.
  unfold INT_MAX. intros Hj Hb. unfold sol_print.
  rewrite (u64_small j) by lia. rewrite (u64_small b) by lia. reflexivity.
Qed.

Lemma sol_print_array_loop_list m p len :
  len <= INT_MAX ->
  forall (todo : list Z) (j : Z) (t : trace) (fuel : nat),
    0 <= j -> j + Z.of_nat (length todo) = len ->
    (length todo <= fuel)%nat ->
    (forall k, 0 <= k < Z.of_nat (length todo) ->
       load8 m (ptr_add p (j + k)) = u8 (nth (Z.to_nat k) todo 0)) ->
    sol_print_array_loop fuel m t p len j = Some (t ++ bytes_trace_from j todo).
Proof.
  unfold INT_MAX. intros Hmax todo.
  induction todo as [|b todo IH]; intros j t fuel Hj Hlen Hf Hmem.
  - cbn [length] in Hlen. assert (j = len) by lia. subst j.
    cbn [bytes_trace_from]. rewrite app_nil_r.
    destruct fuel; cbn [sol_print_array_loop]; rewrite Z.ltb_irrefl; reflexivity.
  - cbn [length] in Hlen, Hf, Hmem.
    destruct fuel as [|fuel]; [lia|]. cbn [sol_print_array_loop].
    replace (j <? len) with true by (symmetry; apply Z.ltb_lt; lia).
    rewrite int32_small by (unfold INT_MIN, INT_MAX; lia).
    pose proof (Hmem 0 ltac:(lia)) as H0.
    rewrite Z.add_0_r in H0. cbn [Z.to_nat nth] in H0.
    rewrite H0.
    rewrite sol_print_record
      by (unfold INT_MAX; pose proof (u8_range b); lia).
    rewrite (IH (j + 1) _ fuel); [| lia | lia | lia |].
    + cbn [bytes_trace_from]. rewrite <- app_assoc. reflexivity.
    + intros k Hk. specialize (Hmem (k + 1) ltac:(lia)).
      replace (j + (k + 1)) with (j + 1 + k) in Hmem by lia.
      rewrite Hmem. replace (Z.to_nat (k + 1)) with (S (Z.to_nat k)) by lia.
      reflexivity.
Qed.

Lemma sol_print_array_list m t p l :
  Z.of_nat (length l) <= INT_MAX ->
  holds m p l ->
  sol_print_array m t p (Z.of_nat (length l)) = Some (t ++ bytes_trace l).
Proof.
  intros Hmax Hmem. unfold sol_print_array, bytes_trace.
  apply (sol_print_array_loop_list m p (Z.of_nat (length l)) Hmax l);
    [lia | lia | lia |].
  intros k Hk. rewrite Z.add_0_l. apply Hmem. exact Hk.
Qed.

Lemma sol_print_key_loop_is_array m key :
  forall (fuel : nat) (t : trace) (j : Z),
    0 <= j <= sizeof_SolPubkey ->
    sol_print_key_loop fuel m t key j
    = sol_print_array_loop fuel m t key sizeof_SolPubkey j.
Proof.
  unfold sizeof_SolPubkey, SIZE_PUBKEY.
  induction fuel as [|fuel IH]; intros t j Hj;
    cbn [sol_print_key_loop sol_print_array_loop];
    unfold sizeof_SolPubkey, SIZE_PUBKEY;
    rewrite (u64_small j) by lia.
  - reflexivity.
  - destruct (j <? 32) eqn:E; [|reflexivity].
    apply Z.ltb_lt in E.
    rewrite int32_small by (unfold INT_MIN, INT_MAX; lia).
    apply IH. lia.
Qed.

Lemma sol_print_key_list m t key l :
  length l = 32%nat ->
  holds m key l ->
  sol_print_key m t key = Some (t ++ bytes_trace l).
Proof.
  intros Hlen Hmem. unfold sol_print_key.
  rewrite sol_print_key_loop_is_array
    by (unfold sizeof_SolPubkey, SIZE_PUBKEY; lia).
  change (Z.to_nat sizeof_SolPubkey) with (Z.to_nat 32).
  replace (sol_print_array_loop (Z.to_nat 32) m t key sizeof_SolPubkey 0)
    with (sol_print_array m t key (Z.of_nat (length l)))
    by (rewrite Hlen; reflexivity).
  apply sol_print_array_list; [rewrite Hlen; unfold INT_MAX; lia | exact Hmem].
Qed.

Lemma length_bytes_from m p j n : length (bytes_from m p j n) = n.
Proof.
  revert j. induction n as [|n IH]; intros j; cbn [bytes_from length];
    [reflexivity | f_equal; apply IH].
Qed.

Lemma nth_bytes_from m p n :
  forall j k, (k < n)%nat ->
    nth k (bytes_from m p j n) 0 = load8 m (ptr_add p (j + Z.of_nat k)).
Proof.
  induction n as [|n IH]; intros j k Hk; [lia|].
  cbn [bytes_from]. destruct k as [|k].
  - cbn [nth]. rewrite Z.add_0_r. reflexivity.
  - cbn [nth]. rewrite IH by lia. f_equal. f_equal. lia.
Qed.

Lemma holds_bytes_at m p n : holds m p (bytes_at m p n).
Proof.
  intros k Hk. unfold bytes_at in *. rewrite length_bytes_from in Hk.
  rewrite nth_bytes_from by lia.
  rewrite Z.add_0_l, Z2Nat.id by lia.
  unfold load8. rewrite u8_idem. reflexivity.
Qed.

Lemma sol_print_array_any m t p len :
  len <= INT_MAX ->
  sol_print_array m t p len
  = Some (t ++ bytes_trace (bytes_at m p (Z.to_nat len))).
Proof.
  intros Hmax. destruct (Z_lt_le_dec len 0) as [Hneg|Hpos].
  - unfold sol_print_array. replace (Z.to_nat len) with 0%nat by lia.
    cbn [sol_print_array_loop].
    replace (0 <? len) with false by (symmetry; apply Z.ltb_ge; lia).
    cbn. rewrite app_nil_r. reflexivity.
  - replace len with (Z.of_nat (length (bytes_at m p (Z.to_nat len)))) at 1
      by (unfold bytes_at; rewrite length_bytes_from; lia).
    apply sol_print_array_list.
    + unfold bytes_at. rewrite length_bytes_from. lia.
    + apply holds_bytes_at.
Qed.

(** X22: for one entry of [ka], [sol_print_params] prints the 32 bytes
    of the key, the balance, the data and the 32 bytes of the owner.
    The data length is converted from [uint64_t] to the [int] that
    [sol_print_array] takes: the number of data bytes printed is that
    [int], and none is printed when it is not positive, as for a length
    from 2^31 to 2^32 - 1. *)
Theorem sol_print_account_prints :
  forall (m : mem) (t : trace) (v : SolKeyedAccounts),
    sol_print_account m t v
    = Some (t ++ bytes_trace (bytes_at m (key v) 32)
              ++ [(0, 0, 0, 0, read_u64 m (tokens v))]
              ++ bytes_trace (bytes_at m (userdata v)
                                (Z.to_nat (int32 (userdata_len v))))
              ++ bytes_trace (bytes_at m (program_id v) 32))
    /\ (2147483648 <= userdata_len v <= 4294967295 ->
        sol_print_account m t v
        = Some (t ++ bytes_trace (bytes_at m (key v) 32)
                  ++ [(0, 0, 0, 0, read_u64 m (tokens v))]
                  ++ bytes_trace (bytes_at m (program_id v) 32))).
Proof.
  intros m t v.
  assert (Hgen : sol_print_account m t v
    = Some (t ++ bytes_trace (bytes_at m (key v) 32)
              ++ [(0, 0, 0, 0, read_u64 m (tokens v))]
              ++ bytes_trace (bytes_at m (userdata v)
                                (Z.to_nat (int32 (userdata_len v))))
              ++ bytes_trace (bytes_at m (program_id v) 32))); [|split; [exact Hgen|]].
  2: { intros Hlen. rewrite Hgen.
       replace (Z.to_nat (int32 (userdata_len v))) with 0%nat; [reflexivity|].
       unfold int32. Z.div_mod_to_equations. lia. }
  unfold sol_print_account.
  rewrite (sol_print_key_list m t (key v) (bytes_at m (key v) 32))
    by (first [apply length_bytes_from | apply holds_bytes_at]).
  rewrite sol_print_record
    by (unfold INT_MAX; pose proof (read_u64_range m (tokens v)); lia).
  rewrite sol_print_array_any by apply int32_range.
  rewrite (sol_print_key_list m _ (program_id v) (bytes_at m (program_id v) 32))
    by (first [apply length_bytes_from | apply holds_bytes_at]).
  rewrite <- !app_assoc. reflexivity.
Qed.

Section Printed.
Variable accounts : list Account.
Variable idata : list Z.
Variable base : Z.
Variable rest : mem.
Hypothesis Hwf : Forall wf_account accounts.
Hypothesis Hbase : 0 <= base.
Hypothesis Hinside :
  base + Z.of_nat (length (serialize accounts idata)) < 18446744073709551616.

Local Abbreviation m := (place base (serialize accounts idata) rest).

(** The memory behind the four fields of the [i]-th record. *)
Lemma serialized_fields i a :
  nth_error accounts i = Some a ->
  holds m (base + (8 + records_size (firstn i accounts))) (identity a)
  /\ read_u64 m (base + (8 + records_size (firstn i accounts) + 32))
     = u64 (balance a)
  /\ holds m (base + (8 + records_size (firstn i accounts) + 48)) (account_data a)
  /\ holds m (base + (8 + records_size (firstn i accounts) + 48
                      + Z.of_nat (length (account_data a))))
           (owner_identity a).
Proof.
  intros Ha.
  destruct (wf_nth accounts Hwf i a Ha) as [Hli Hlo].
  pose proof (record_inside accounts idata Hwf i a Ha) as Hin.
  unfold record_size in Hin.
  pose proof (records_size_nonneg (firstn i accounts)) as Hn.
  split; [|split; [|split]].
  - intros k Hk. rewrite ptr_add_fits by lia. unfold load8. f_equal.
    replace (base + (8 + records_size (firstn i accounts)) + k)
      with (base + (8 + records_size (firstn i accounts)
                    + Z.of_nat (length (@nil Z)) + k)) by (cbn; lia).
    apply (record_field accounts idata base rest Hwf i a [] (identity a)
             (le64 (balance a) ++ le64 (Z.of_nat (length (account_data a)))
                ++ account_data a ++ owner_identity a) k Ha); [reflexivity | lia].
  - replace (base + (8 + records_size (firstn i accounts) + 32))
      with (base + (8 + records_size (firstn i accounts)
                    + Z.of_nat (length (identity a)))) by lia.
    apply (record_u64 accounts idata base rest Hwf Hbase Hinside i a (identity a)
             (balance a)
             (le64 (Z.of_nat (length (account_data a)))
                ++ account_data a ++ owner_identity a) Ha). reflexivity.
  - intros k Hk. rewrite ptr_add_fits by lia. unfold load8. f_equal.
    replace (base + (8 + records_size (firstn i accounts) + 48) + k)
      with (base + (8 + records_size (firstn i accounts)
                    + Z.of_nat (length (identity a ++ le64 (balance a)
                         ++ le64 (Z.of_nat (length (account_data a))))) + k))
      by (rewrite !length_app, !length_le64, Hli; lia).
    apply (record_field accounts idata base rest Hwf i a
             (identity a ++ le64 (balance a)
                ++ le64 (Z.of_nat (length (account_data a))))
             (account_data a) (owner_identity a) k Ha); [|lia].
    unfold serialize_account. rewrite <- !app_assoc. reflexivity.
  - intros k Hk. rewrite ptr_add_fits by lia. unfold load8. f_equal.
    replace (base + (8 + records_size (firstn i accounts) + 48
                     + Z.of_nat (length (account_data a))) + k)
      with (base + (8 + records_size (firstn i accounts)
                    + Z.of_nat (length (identity a ++ le64 (balance a)
                         ++ le64 (Z.of_nat (length (account_data a)))
                         ++ account_data a)) + k))
      by (rewrite !length_app, !length_le64, Hli; lia).
    apply (record_field accounts idata base rest Hwf i a
             (identity a ++ le64 (balance a)
                ++ le64 (Z.of_nat (length (account_data a))) ++ account_data a)
             (owner_identity a) [] k Ha); [|lia].
    unfold serialize_account. rewrite app_nil_r, <- !app_assoc. reflexivity.
Qed.

Lemma sol_print_account_serialized t i a v :
  nth_error accounts i = Some a ->
  Z.of_nat (length (account_data a)) <= INT_MAX ->
  v = mkKA (base + (8 + records_size (firstn i accounts)))
           (base + (8 + records_size (firstn i accounts) + 32))
           (Z.of_nat (length (account_data a)))
           (base + (8 + records_size (firstn i accounts) + 48))
           (base + (8 + records_size (firstn i accounts) + 48
                    + Z.of_nat (length (account_data a)))) ->
  sol_print_account m t v = Some (t ++ account_trace a).
Proof.
  intros Ha Hmax ->.
  destruct (wf_nth accounts Hwf i a Ha) as [Hli Hlo].
  destruct (serialized_fields i a Ha) as (Hk & Hb & Hd & Ho).
  unfold sol_print_account.
  cbn [key tokens userdata userdata_len program_id].
  rewrite (sol_print_key_list m t _ (identity a) Hli Hk).
  rewrite Hb.
  rewrite sol_print_record
    by (unfold INT_MAX; pose proof (u64_range (balance a)); lia).
  rewrite int32_small by (unfold INT_MIN; lia).
  rewrite (sol_print_array_list m _ _ (account_data a) Hmax Hd).
  rewrite (sol_print_key_list m _ _ (owner_identity a) Hlo Ho).
  unfold account_trace. rewrite <- !app_assoc. reflexivity.
Qed.

Lemma sol_print_params_loop_serialized (a' : Z -> SolKeyedAccounts) :
  Z.of_nat (length accounts) <= INT_MAX ->
  (forall i a, nth_error accounts i = Some a ->
     a' (Z.of_nat i)
     = mkKA (base + (8 + records_size (firstn i accounts)))
            (base + (8 + records_size (firstn i accounts) + 32))
            (Z.of_nat (length (account_data a)))
            (base + (8 + records_size (firstn i accounts) + 48))
            (base + (8 + records_size (firstn i accounts) + 48
                     + Z.of_nat (length (account_data a))))) ->
  forall (todo done : list Account) (t : trace) (fuel : nat),
    accounts = done ++ todo ->
    (length todo <= fuel)%nat ->
    Forall (fun a => Z.of_nat (length (account_data a)) <= INT_MAX) todo ->
    sol_print_params_loop fuel m t (Z.of_nat (length accounts)) a'
      (Z.of_nat (length done))
    = Some (t ++ flat_map account_trace todo).
Proof.
  unfold INT_MAX. intros Hmax Hview todo.
  induction todo as [|a todo IH]; intros done t fuel Hsplit Hf Hlen.
  - rewrite app_nil_r in Hsplit. subst done.
    cbn [flat_map]. rewrite app_nil_r.
    destruct fuel; cbn [sol_print_params_loop];
      rewrite u64_small by lia; rewrite Z.ltb_irrefl; reflexivity.
  - cbn [length] in Hf. destruct fuel as [|fuel]; [lia|].
    assert (Hn : length accounts = (length done + S (length todo))%nat)
      by (rewrite Hsplit, length_app; reflexivity).
    cbn [sol_print_params_loop].
    rewrite u64_small by lia.
    replace (Z.of_nat (length done) <? Z.of_nat (length accounts)) with true
      by (symmetry; apply Z.ltb_lt; lia).
    assert (Ha : nth_error accounts (length done) = Some a).
    { rewrite Hsplit, nth_error_app2 by lia.
      rewrite Nat.sub_diag. reflexivity. }
    apply Forall_cons_iff in Hlen. destruct Hlen as [Ha_len Htodo_len].
    rewrite (sol_print_account_serialized t (length done) a _ Ha Ha_len
               (Hview _ _ Ha)).
    rewrite int32_small by (unfold INT_MIN, INT_MAX; lia).
    replace (Z.of_nat (length done) + 1)
      with (Z.of_nat (length (done ++ [a])))
      by (rewrite length_app; cbn [length]; lia).
    rewrite (IH (done ++ [a]) _ fuel); [| | lia | exact Htodo_len].
    + cbn [flat_map]. rewrite <- app_assoc. reflexivity.
    + rewrite <- app_assoc. exact Hsplit.
Qed.

(** X21: deserializing a serialized input and printing the parameters
    prints what the host serialized: the count, then for each account
    its 32 identity bytes, its balance, its data bytes and its 32 owner
    bytes, then the instruction data bytes, each byte with its index.
    The data of every account and the instruction data are taken within
    the range of an [int]. *)
Theorem printed_parameters_of_serialized_input :
  Z.of_nat (length accounts) <= INT_MAX ->
  Forall (fun a => Z.of_nat (length (account_data a)) <= INT_MAX) accounts ->
  Z.of_nat (length idata) <= INT_MAX ->
  forall a0 d dl t,
  exists st',
    sol_deserialize m base (mkOut a0 None d dl) (Z.of_nat (length accounts))
    = Some (true, st')
    /\ sol_print_params m t (Z.of_nat (length accounts)) (ka st')
         (data st') (data_len st')
       = Some (t ++ params_trace accounts idata).
Proof.
  intros Hmax Hdata Hidata a0 d dl t.
  destruct (serialized_views accounts idata base rest Hwf Hbase Hinside Hmax a0 d dl)
    as (st' & Hrun & Hview & Hdl & Hd).
  exists st'. split; [exact Hrun|].
  unfold sol_print_params.
  unfold sol_print at 1.
  rewrite (u64_small (Z.of_nat (length accounts))) by (unfold INT_MAX in Hmax; lia).
  change (u64 0) with 0.
  rewrite (sol_print_params_loop_serialized (ka st') Hmax Hview accounts []
             _ (Z.to_nat (Z.of_nat (length accounts))) eq_refl)
    by (try lia; exact Hdata).
  rewrite Hdl, Hd.
  rewrite int32_small by (unfold INT_MIN; lia).
  destruct (serialized_trailer accounts idata base rest Hwf Hbase Hinside)
    as [_ Hbytes].
  assert (Hend : 8 + records_size accounts + 8 + Z.of_nat (length idata)
                 = Z.of_nat (length (serialize accounts idata))).
  { unfold serialize. rewrite !length_app, !length_le64, !Nat2Z.inj_add.
    rewrite length_records by exact Hwf. lia. }
  pose proof (records_size_nonneg accounts) as Hrs.
  rewrite (sol_print_array_list m _ _ idata Hidata).
  - unfold params_trace. rewrite <- !app_assoc. reflexivity.
  - intros k Hk. rewrite ptr_add_fits by lia. unfold load8. f_equal.
    replace (base + (8 + records_size accounts + 8) + k)
      with (base + (8 + records_size accounts + 8 + k)) by lia.
    apply Hbytes. exact Hk.
Qed.
End Printed.

Lemma printed_parameters_of_serialized_input_witness :
  exists st',
    sol_deserialize (Examples.input_memory 1) Examples.base
      Examples.exact_outputs 4 = Some (true, st')
    /\ sol_print_params (Examples.input_memory 1) [] 4 (ka st') (data st')
         (data_len st')
       = Some ([] ++ params_trace Examples.four_accounts [1]).
Proof.
  apply (printed_parameters_of_serialized_input Examples.four_accounts [1]
           Examples.base Examples.zero_memory).
  - repeat constructor.
  - evaluate.
  - evaluate.
  - evaluate.
  - repeat constructor; evaluate.
  - evaluate.
Defined.

End PrintFacts.

(* ===================================================================== *)
(** ** More of dup_accounts.c *)
(* ===================================================================== *)

Section ProgramFacts.
Import Mem DupAccounts.

Lemma store8_other m p x a : a <> p -> store8 m p x a = m a.
Proof.
  intros H. unfold store8.
  replace (a =? p) with false; [reflexivity|].
  symmetry. apply Z.eqb_neq. exact H.
Qed.

Lemma add_u8_other m p d a : a <> p -> add_u8 m p d a = m a.
Proof. intros H. unfold add_u8. apply store8_other. exact H. Qed.

Lemma add_u64_other m p d a :
  a <> p -> (forall k, 1 <= k <= 7 -> a <> ptr_add p k) ->
  add_u64 m p d a = m a.
Proof. intros H0 H. unfold add_u64. apply write_u64_other; assumption. Qed.

(** The opcodes the program knows, as the [switch] reads them. *)
Lemma opcode_cases (op : Z) :
  op = 1 \/ op = 2 \/ op = 3 \/ op = 4 \/ op = 5 \/ op = 6 \/ ~ (1 <= op <= 6).
Proof. lia. Qed.

Lemma entrypoint_default deser SC EA EI m input params :
  deser m input SOL_ARRAY_SIZE_ka = Some params ->
  ~ (1 <= load8 m (params_data params) <= 6) ->
  entrypoint deser SC EA EI m input = (EI, m).
Proof.
  intros Hdes Hop. unfold entrypoint. rewrite Hdes.
  destruct (load8 m (params_data params)) as [|p|p]; try reflexivity.
  destruct p as [[[|q| ]|[|q| ]| ]|[[|q| ]|[|q| ]| ]| ]; try reflexivity;
    exfalso; apply Hop; lia.
Qed.

(** X13: the frame of the program, for every decoder and every opcode.
    A byte of the memory whose address is neither the data pointer of
    the entry 2 or 3 of [ka] nor one of the eight addresses from the
    lamports pointer of the entry 1, 2 or 3 holds after the call what it
    held before. *)
Theorem entrypoint_writes_only_through_views :
  forall (deser : mem -> Z -> Z -> option SolParameters)
         (SUCCESS E_ARGUMENT E_INSTRUCTION_DATA : Z)
         (m : mem) (input : Z) (a : Z),
    (forall params,
       deser m input SOL_ARRAY_SIZE_ka = Some params ->
       a <> data (ka params 2) /\ a <> data (ka params 3)
       /\ forall j, 1 <= j <= 3 ->
            a <> lamports (ka params j)
            /\ forall k, 1 <= k <= 7 -> a <> ptr_add (lamports (ka params j)) k) ->
    snd (entrypoint deser SUCCESS E_ARGUMENT E_INSTRUCTION_DATA m input) a = m a.
Proof.
  intros deser SC EA EI m input a Hout.
  destruct (deser m input SOL_ARRAY_SIZE_ka) as [params|] eqn:Hdes.
  - destruct (Hout params eq_refl) as (Hd2 & Hd3 & Hl).
    destruct (Hl 1 ltac:(lia)) as [H1 H1'].
    destruct (Hl 2 ltac:(lia)) as [H2 H2'].
    destruct (Hl 3 ltac:(lia)) as [H3 H3'].
    destruct (opcode_cases (load8 m (params_data params)))
      as [E|[E|[E|[E|[E|[E|E]]]]]].
    7: { rewrite (entrypoint_default _ _ _ _ _ _ _ Hdes E). reflexivity. }
    all: unfold entrypoint; rewrite Hdes, E; cbn [snd].
    + apply store8_other. exact Hd2.
    + apply store8_other. exact Hd3.
    + rewrite add_u8_other by exact Hd3. apply add_u8_other. exact Hd2.
    + rewrite add_u64_other by assumption. apply add_u64_other; assumption.
    + rewrite add_u64_other by assumption. apply add_u64_other; assumption.
    + rewrite add_u64_other by assumption. rewrite add_u64_other by assumption.
      apply add_u64_other; assumption.
  - unfold entrypoint. rewrite Hdes. reflexivity.
Qed.

Lemma entrypoint_writes_only_through_views_witness :
  snd (entrypoint Examples.deserialize_exact Examples.success_code
         Examples.invalid_argument_code Examples.invalid_instruction_data_code
         (Examples.input_memory 6) Examples.base) 4136
  = Examples.input_memory 6 4136.
Proof.
  apply (entrypoint_writes_only_through_views Examples.deserialize_exact).
  intros params H.
  assert (Hp : Examples.deserialize_exact (Examples.input_memory 6) Examples.base
                 SOL_ARRAY_SIZE_ka = Some (Examples.decoded_params 6))
    by (vm_compute; reflexivity).
  rewrite Hp in H. injection H as <-.
  split; [evaluate|]. split; [evaluate|].
  intros j Hj. assert (Hc : j = 1 \/ j = 2 \/ j = 3) by lia.
  destruct Hc as [Hc|[Hc|Hc]]; subst j.
  - replace (lamports (ka (Examples.decoded_params 6) 1)) with 4219
      by (vm_compute; reflexivity).
    split; [lia|]. intros k Hk. rewrite ptr_add_fits by lia. lia.
  - replace (lamports (ka (Examples.decoded_params 6) 2)) with 4299
      by (vm_compute; reflexivity).
    split; [lia|]. intros k Hk. rewrite ptr_add_fits by lia. lia.
  - replace (lamports (ka (Examples.decoded_params 6) 3)) with 4380
      by (vm_compute; reflexivity).
    split; [lia|]. intros k Hk. rewrite ptr_add_fits by lia. lia.
Defined.

(** X14: opcode 2.  The program returns the success code and stores 2
    in the first data byte of the account at index 3; no other byte of
    the memory changes, so the first data byte of the account at index 2
    changes only when the two views share it. *)
Theorem opcode_2_sets_first_data_byte :
  forall (deser : mem -> Z -> Z -> option SolParameters)
         (SUCCESS E_ARGUMENT E_INSTRUCTION_DATA : Z)
         (m : mem) (input : Z) (params : SolParameters),
    deser m input SOL_ARRAY_SIZE_ka = Some params ->
    load8 m (params_data params) = 2 ->
    fst (entrypoint deser SUCCESS E_ARGUMENT E_INSTRUCTION_DATA m input) = SUCCESS
    /\ load8 (snd (entrypoint deser SUCCESS E_ARGUMENT E_INSTRUCTION_DATA m input))
             (data (ka params 3)) = 2
    /\ (forall a, a <> data (ka params 3) ->
          snd (entrypoint deser SUCCESS E_ARGUMENT E_INSTRUCTION_DATA m input) a = m a)
    /\ (data (ka params 2) <> data (ka params 3) ->
        load8 (snd (entrypoint deser SUCCESS E_ARGUMENT E_INSTRUCTION_DATA m input))
              (data (ka params 2))
        = load8 m (data (ka params 2))).
Proof.
  intros deser SC EA EI m input params Hdes Hop.
  unfold entrypoint. rewrite Hdes, Hop. cbn [fst snd].
  split; [reflexivity|]. split; [apply load8_store8_same|]. split.
  - intros a Ha. apply store8_other. exact Ha.
  - intros Hne. apply load8_store8_other. exact Hne.
Qed.

Lemma opcode_2_sets_first_data_byte_witness :
  load8 (snd (entrypoint Examples.deserialize_exact Examples.success_code
                Examples.invalid_argument_code
                Examples.invalid_instruction_data_code
                (Examples.input_memory 2) Examples.base))
        (data (ka (Examples.decoded_params 2) 3)) = 2
  /\ data (ka (Examples.decoded_params 2) 3) = 4396.
Proof.
  split; [|vm_compute; reflexivity].
  destruct (opcode_2_sets_first_data_byte Examples.deserialize_exact Examples.success_code
              Examples.invalid_argument_code Examples.invalid_instruction_data_code
              (Examples.input_memory 2) Examples.base (Examples.decoded_params 2))
    as (_ & Hbyte & _).
  - vm_compute. reflexivity.
  - vm_compute. reflexivity.
  - exact Hbyte.
Defined.

(** X15: opcodes 4 and 5, with the balances of the accounts at the
    indices 1, 2 and 3 in three separate cells.  Opcode 4 takes 1 from
    the balance at index 1 and adds 1 to the balance at index 2; opcode 5
    takes 2 from the balance at index 1 and adds 2 to the balance at
    index 3 (as 64-bit integers); the third balance is left as it was. *)
Theorem opcodes_4_5_move_lamports :
  forall (deser : mem -> Z -> Z -> option SolParameters)
         (SUCCESS E_ARGUMENT E_INSTRUCTION_DATA : Z)
         (m : mem) (input : Z) (params : SolParameters),
    deser m input SOL_ARRAY_SIZE_ka = Some params ->
    cell (lamports (ka params 1)) ->
    cell (lamports (ka params 2)) ->
    cell (lamports (ka params 3)) ->
    apart (lamports (ka params 1)) (lamports (ka params 2)) ->
    apart (lamports (ka params 1)) (lamports (ka params 3)) ->
    apart (lamports (ka params 2)) (lamports (ka params 3)) ->
    (load8 m (params_data params) = 4 ->
     fst (entrypoint deser SUCCESS E_ARGUMENT E_INSTRUCTION_DATA m input) = SUCCESS
     /\ read_u64 (snd (entrypoint deser SUCCESS E_ARGUMENT E_INSTRUCTION_DATA m input))
                 (lamports (ka params 1))
        = u64 (read_u64 m (lamports (ka params 1)) - 1)
     /\ read_u64 (snd (entrypoint deser SUCCESS E_ARGUMENT E_INSTRUCTION_DATA m input))
                 (lamports (ka params 2))
        = u64 (read_u64 m (lamports (ka params 2)) + 1)
     /\ read_u64 (snd (entrypoint deser SUCCESS E_ARGUMENT E_INSTRUCTION_DATA m input))
                 (lamports (ka params 3))
        = read_u64 m (lamports (ka params 3)))
    /\ (load8 m (params_data params) = 5 ->
        fst (entrypoint deser SUCCESS E_ARGUMENT E_INSTRUCTION_DATA m input) = SUCCESS
        /\ read_u64 (snd (entrypoint deser SUCCESS E_ARGUMENT E_INSTRUCTION_DATA m input))
                    (lamports (ka params 1))
           = u64 (read_u64 m (lamports (ka params 1)) - 2)
        /\ read_u64 (snd (entrypoint deser SUCCESS E_ARGUMENT E_INSTRUCTION_DATA m input))
                    (lamports (ka params 2))
           = read_u64 m (lamports (ka params 2))
        /\ read_u64 (snd (entrypoint deser SUCCESS E_ARGUMENT E_INSTRUCTION_DATA m input))
                    (lamports (ka params 3))
           = u64 (read_u64 m (lamports (ka params 3)) + 2)).
Proof.
  intros deser SC EA EI m input params Hdes C1 C2 C3 A12 A13 A23.
  pose proof (apart_sym _ _ A12) as A21.
  pose proof (apart_sym _ _ A13) as A31.
  pose proof (apart_sym _ _ A23) as A32.
  split; intros Hop; unfold entrypoint; rewrite Hdes, Hop; cbn [fst snd];
    (split; [reflexivity|]).
  - split; [|split].
    + rewrite read_add_u64_apart by assumption.
      rewrite read_add_u64_same by assumption. f_equal.
    + rewrite read_add_u64_same by assumption.
      rewrite read_add_u64_apart by assumption. reflexivity.
    + rewrite read_add_u64_apart by assumption.
      apply read_add_u64_apart; assumption.
  - split; [|split].
    + rewrite read_add_u64_apart by assumption.
      rewrite read_add_u64_same by assumption. f_equal.
    + rewrite read_add_u64_apart by assumption.
      apply read_add_u64_apart; assumption.
    + rewrite read_add_u64_same by assumption.
      rewrite read_add_u64_apart by assumption. reflexivity.
Qed.

Lemma opcodes_4_5_move_lamports_witness :
  read_u64 (snd (entrypoint Examples.deserialize_exact Examples.success_code
                   Examples.invalid_argument_code
                   Examples.invalid_instruction_data_code
                   (Examples.input_memory 4) Examples.base))
           (lamports (ka (Examples.decoded_params 4) 1))
  = u64 (read_u64 (Examples.input_memory 4)
           (lamports (ka (Examples.decoded_params 4) 1)) - 1).
Proof.
  destruct (opcodes_4_5_move_lamports Examples.deserialize_exact Examples.success_code
              Examples.invalid_argument_code Examples.invalid_instruction_data_code
              (Examples.input_memory 4) Examples.base (Examples.decoded_params 4))
    as [H4 _].
  - vm_compute. reflexivity.
  - evaluate.
  - evaluate.
  - evaluate.
  - left. evaluate.
  - left. evaluate.
  - left. evaluate.
  - destruct H4 as (_ & H & _); [vm_compute; reflexivity | exact H].
Defined.

(** X16: opcode 6 on a duplicated account: when the views at the
    indices 2 and 3 hold the same balance pointer, the two additions land
    in the one cell, which grows by 3, and the balance at index 1 falls
    by 3. *)
Theorem opcode_6_with_shared_balance :
  forall (deser : mem -> Z -> Z -> option SolParameters)
         (SUCCESS E_ARGUMENT E_INSTRUCTION_DATA : Z)
         (m : mem) (input : Z) (params : SolParameters),
    deser m input SOL_ARRAY_SIZE_ka = Some params ->
    load8 m (params_data params) = 6 ->
    lamports (ka params 2) = lamports (ka params 3) ->
    cell (lamports (ka params 1)) ->
    cell (lamports (ka params 2)) ->
    apart (lamports (ka params 1)) (lamports (ka params 2)) ->
    read_u64 (snd (entrypoint deser SUCCESS E_ARGUMENT E_INSTRUCTION_DATA m input))
             (lamports (ka params 1))
    = u64 (read_u64 m (lamports (ka params 1)) - 3)
    /\ read_u64 (snd (entrypoint deser SUCCESS E_ARGUMENT E_INSTRUCTION_DATA m input))
                (lamports (ka params 3))
       = u64 (read_u64 m (lamports (ka params 2)) + 3).
Proof.
  intros deser SC EA EI m input params Hdes Hop Hsame C1 C2 A12.
  pose proof (apart_sym _ _ A12) as A21.
  unfold entrypoint. rewrite Hdes, Hop. cbn [snd]. rewrite <- Hsame.
  split.
  - rewrite !read_add_u64_apart by assumption.
    rewrite read_add_u64_same by assumption. f_equal.
  - rewrite !read_add_u64_same by assumption.
    rewrite read_add_u64_apart by assumption.
    unfold u64. rewrite Zplus_mod_idemp_l. f_equal. lia.
Qed.

Lemma opcode_6_with_shared_balance_witness :
  read_u64 (snd (entrypoint Examples.deserialize_dup Examples.success_code
                   Examples.invalid_argument_code
                   Examples.invalid_instruction_data_code
                   (Examples.input_memory 6) Examples.base))
           (lamports (ka (Examples.dup_params 6) 3))
  = u64 (read_u64 (Examples.input_memory 6)
           (lamports (ka (Examples.dup_params 6) 2)) + 3).
Proof.
  destruct (opcode_6_with_shared_balance Examples.deserialize_dup
              Examples.success_code Examples.invalid_argument_code
              Examples.invalid_instruction_data_code
              (Examples.input_memory 6) Examples.base (Examples.dup_params 6))
    as (_ & H).
  - vm_compute. reflexivity.
  - vm_compute. reflexivity.
  - vm_compute. reflexivity.
  - evaluate.
  - evaluate.
  - left. evaluate.
  - exact H.
Defined.

Lemma read_store8_outside m q x p :
  cell p -> outside q p -> read_u64 (store8 m q x) p = read_u64 m p.
Proof. intros [H0 H1] H. apply read_u64_store8_apart; assumption. Qed.

Lemma read_add_u8_outside m q d p :
  cell p -> outside q p -> read_u64 (add_u8 m q d) p = read_u64 m p.
Proof. intros Hc H. unfold add_u8. apply read_store8_outside; assumption. Qed.

(** X17: the program keeps the sum of the balances.  With the balances
    of the accounts at the indices 1, 2 and 3 in three separate cells
    that hold neither of the two data bytes the program writes, the sum
    of the three balances after the call equals the sum before it (as a
    64-bit integer), whatever the opcode. *)
Theorem entrypoint_conserves_lamports :
  forall (deser : mem -> Z -> Z -> option SolParameters)
         (SUCCESS E_ARGUMENT E_INSTRUCTION_DATA : Z)
         (m : mem) (input : Z) (params : SolParameters),
    deser m input SOL_ARRAY_SIZE_ka = Some params ->
    cell (lamports (ka params 1)) ->
    cell (lamports (ka params 2)) ->
    cell (lamports (ka params 3)) ->
    apart (lamports (ka params 1)) (lamports (ka params 2)) ->
    apart (lamports (ka params 1)) (lamports (ka params 3)) ->
    apart (lamports (ka params 2)) (lamports (ka params 3)) ->
    (forall j, 1 <= j <= 3 ->
       outside (data (ka params 2)) (lamports (ka params j))
       /\ outside (data (ka params 3)) (lamports (ka params j))) ->
    u64 (read_u64 (snd (entrypoint deser SUCCESS E_ARGUMENT E_INSTRUCTION_DATA m input))
                  (lamports (ka params 1))
         + read_u64 (snd (entrypoint deser SUCCESS E_ARGUMENT E_INSTRUCTION_DATA m input))
                    (lamports (ka params 2))
         + read_u64 (snd (entrypoint deser SUCCESS E_ARGUMENT E_INSTRUCTION_DATA m input))
                    (lamports (ka params 3)))
    = u64 (read_u64 m (lamports (ka params 1))
           + read_u64 m (lamports (ka params 2))
           + read_u64 m (lamports (ka params 3))).
Proof.
  intros deser SC EA EI m input params Hdes C1 C2 C3 A12 A13 A23 Hdata.
  pose proof (apart_sym _ _ A12) as A21.
  pose proof (apart_sym _ _ A13) as A31.
  pose proof (apart_sym _ _ A23) as A32.
  destruct (Hdata 1 ltac:(lia)) as [D21 D31].
  destruct (Hdata 2 ltac:(lia)) as [D22 D32].
  destruct (Hdata 3 ltac:(lia)) as [D23 D33].
  destruct (opcode_cases (load8 m (params_data params)))
    as [E|[E|[E|[E|[E|[E|E]]]]]].
  7: { rewrite (entrypoint_default _ _ _ _ _ _ _ Hdes E). reflexivity. }
  all: unfold entrypoint; rewrite Hdes, E; cbn [snd].
  - rewrite !read_store8_outside by assumption. reflexivity.
  - rewrite !read_store8_outside by assumption. reflexivity.
  - rewrite !read_add_u8_outside by assumption. reflexivity.
  - repeat first [ rewrite read_add_u64_same by assumption
                 | rewrite read_add_u64_apart by assumption ].
    unfold u64. Z.div_mod_to_equations. lia.
  - repeat first [ rewrite read_add_u64_same by assumption
                 | rewrite read_add_u64_apart by assumption ].
    unfold u64. Z.div_mod_to_equations. lia.
  - repeat first [ rewrite read_add_u64_same by assumption
                 | rewrite read_add_u64_apart by assumption ].
    unfold u64. Z.div_mod_to_equations. lia.
Qed.

Lemma entrypoint_conserves_lamports_witness :
  u64 (read_u64 (snd (entrypoint Examples.deserialize_exact Examples.success_code
                        Examples.invalid_argument_code
                        Examples.invalid_instruction_data_code
                        (Examples.input_memory 5) Examples.base))
                (lamports (ka (Examples.decoded_params 5) 1))
       + read_u64 (snd (entrypoint Examples.deserialize_exact Examples.success_code
                          Examples.invalid_argument_code
                          Examples.invalid_instruction_data_code
                          (Examples.input_memory 5) Examples.base))
                  (lamports (ka (Examples.decoded_params 5) 2))
       + read_u64 (snd (entrypoint Examples.deserialize_exact Examples.success_code
                          Examples.invalid_argument_code
                          Examples.invalid_instruction_data_code
                          (Examples.input_memory 5) Examples.base))
                  (lamports (ka (Examples.decoded_params 5) 3)))
  = u64 (read_u64 (Examples.input_memory 5)
           (lamports (ka (Examples.decoded_params 5) 1))
         + read_u64 (Examples.input_memory 5)
             (lamports (ka (Examples.decoded_params 5) 2))
         + read_u64 (Examples.input_memory 5)
             (lamports (ka (Examples.decoded_params 5) 3))).
Proof.
  apply (entrypoint_conserves_lamports Examples.deserialize_exact Examples.success_code
           Examples.invalid_argument_code Examples.invalid_instruction_data_code
           (Examples.input_memory 5) Examples.base (Examples.decoded_params 5)).
  - vm_compute. reflexivity.
  - evaluate.
  - evaluate.
  - evaluate.
  - left. evaluate.
  - left. evaluate.
  - left. evaluate.
  - intros j Hj. assert (Hc : j = 1 \/ j = 2 \/ j = 3) by lia.
    destruct Hc as [Hc|[Hc|Hc]]; subst j;
      (split; first [left; evaluate | right; evaluate]).
Defined.

(** X4: the status the program returns and what a failure leaves, for
    every decoder.  When the input does not decode the program returns
    the invalid-argument code and the memory is as it was; when it
    decodes, the status is the success code for an opcode from 1 to 6
    and the invalid-instruction-data code for any other; and whenever
    the status is not the success code, no byte of the memory has been
    written: both failures return before the first store. *)
Theorem entrypoint_status :
  forall (deser : mem -> Z -> Z -> option SolParameters)
         (SUCCESS E_ARGUMENT E_INSTRUCTION_DATA : Z) (m : mem) (input : Z),
    (deser m input SOL_ARRAY_SIZE_ka = None ->
     entrypoint deser SUCCESS E_ARGUMENT E_INSTRUCTION_DATA m input
     = (E_ARGUMENT, m))
    /\ (forall params,
          deser m input SOL_ARRAY_SIZE_ka = Some params ->
          fst (entrypoint deser SUCCESS E_ARGUMENT E_INSTRUCTION_DATA m input)
          = if (1 <=? load8 m (params_data params))
               && (load8 m (params_data params) <=? 6)
            then SUCCESS else E_INSTRUCTION_DATA)
    /\ (fst (entrypoint deser SUCCESS E_ARGUMENT E_INSTRUCTION_DATA m input)
        <> SUCCESS ->
        snd (entrypoint deser SUCCESS E_ARGUMENT E_INSTRUCTION_DATA m input) = m).
Proof.
  intros deser SC EA EI m input.
  destruct (deser m input SOL_ARRAY_SIZE_ka) as [params|] eqn:Hdes.
  - split; [discriminate|].
    destruct (opcode_cases (load8 m (params_data params)))
      as [E|[E|[E|[E|[E|[E|E]]]]]].
    7: { rewrite (entrypoint_default _ _ _ _ _ _ _ Hdes E). cbn [fst snd].
         split; [|reflexivity].
         intros params' [= <-].
         destruct (1 <=? load8 m (params_data params)) eqn:A;
           destruct (load8 m (params_data params) <=? 6) eqn:B;
           cbn [andb]; try reflexivity.
         apply Z.leb_le in A, B. exfalso. apply E. lia. }
    all: unfold entrypoint; rewrite Hdes, E; cbn [fst snd];
      (split; [intros params' [= <-]; rewrite E; reflexivity
              | intros Hne; exfalso; apply Hne; reflexivity]).
  - split; [intros _; unfold entrypoint; rewrite Hdes; reflexivity|].
    split; [discriminate|].
    intros _. unfold entrypoint. rewrite Hdes. reflexivity.
Qed.

End ProgramFacts.
